(** * gb-whatsapp-friend: the client data/sync layer over the hosted gateway

    A shallow embedding of the hooks and view handlers of the messaging
    client ([useConversations], [useMessages], [ContactsView],
    [AddContactDialog], [StoriesView], [StoryViewer], [ChatView]) together
    with the part of the hosted relational store they talk to: the tables
    of migration [20260102163018] with their primary-key, unique and
    foreign-key constraints.

    Conventions.
    - A [uuid] is the string the client sees; [gen_random_uuid()] and
      [now()] are supplied by the gateway environment [Env] of each write.
    - A [timestamptz] is a [Z]; a nullable column is an [option].
    - Every write call carries an optional transport or service fault; reads
      are answered from the current tables.
    - Row-level security policies are not part of the model: the tables are
      seen as the signed-in user is allowed to see them.
    - [Fixtures] is a small database on which the functions are run.
    - The surrogate [id] of the two join tables [conversation_members] and
      [story_views] is never read by the client and is left out; their
      identity is their unique pair. *)

From Stdlib Require Import ZArith NArith Ascii DecimalString.
From stdpp Require Import base decidable option list strings gmap sets sorting.

(** ** Gateway values *)

Definition uuid := string.
Definition timestamptz := Z.
Bind Scope Z_scope with timestamptz.

(** Postgres orders NULL above every value: last when ascending, first when
    descending. *)
Definition ts_leb (a b : option timestamptz) : bool :=
  match a, b with
  | _, None => true
  | None, Some _ => false
  | Some x, Some y => (x <=? y)%Z
  end.

(** [.gt(column, v)]: a NULL column never satisfies the filter. *)
Definition ts_gt (a : option timestamptz) (v : timestamptz) : bool :=
  match a with
  | Some x => (v <? x)%Z
  | None => false
  end.

(** ** Stable sorting: [ORDER BY] and [Array.prototype.sort]

    Rows with equal keys keep their table order, which is one of the orders
    the gateway may answer with; nothing proved below depends on how ties
    are broken. *)

Section Sorting.
Context {A : Type}.
Variable before : A → A → bool.

Fixpoint insert_sorted (x : A) (l : list A) : list A :=
  match l with
  | [] => [x]
  | y :: l' => if before x y then x :: y :: l' else y :: insert_sorted x l'
  end.

Definition sort_by (l : list A) : list A := foldr insert_sorted [] l.
End Sorting.

(** [arr.sort(cmp)]: stable since ES2019; [a] stays before [b] when
    [cmp a b <= 0]. *)
Definition js_sort {A} (cmp : A → A → Z) (l : list A) : list A :=
  sort_by (λ a b, (cmp a b <=? 0)%Z) l.

(** [[...new Set(xs)]]: distinct values in order of first occurrence. *)
Definition set_add (acc : list uuid) (x : uuid) : list uuid :=
  if decide (x ∈ acc) then acc else acc ++ [x].

Definition spread_new_Set (xs : list uuid) : list uuid :=
  foldl set_add [] xs.

(** ** Tables *)

Module profiles.
Record Row := mk {
  id : uuid;
  username : option string;
  display_name : option string;
  avatar_url : option string;
  is_online : option bool
}.
End profiles.

Module conversations.
Record Row := mk {
  id : uuid;
  is_group : bool;
  name : option string;
  image_url : option string;
  created_by : option uuid;
  created_at : option timestamptz;
  updated_at : option timestamptz
}.
End conversations.

Module conversation_members.
Record Row := mk {
  conversation_id : uuid;
  user_id : uuid;
  is_admin : bool;
  joined_at : option timestamptz
}.
End conversation_members.

Module messages.
Record Row := mk {
  id : uuid;
  conversation_id : uuid;
  sender_id : option uuid;
  content : option string;
  message_type : string;
  file_url : option string;
  file_name : option string;
  is_read : bool;
  created_at : option timestamptz;
  updated_at : option timestamptz
}.
End messages.

Module stories.
Record Row := mk {
  id : uuid;
  user_id : uuid;
  content : option string;
  image_url : option string;
  background_color : option string;
  expires_at : option timestamptz;
  created_at : option timestamptz
}.
End stories.

Module story_views.
Record Row := mk {
  story_id : uuid;
  viewer_id : uuid;
  viewed_at : option timestamptz
}.
End story_views.

Module contacts.
Record Row := mk {
  id : uuid;
  user_id : uuid;
  contact_id : uuid;
  status : string;
  created_at : option timestamptz
}.
End contacts.

#[global] Instance profiles_eq_dec : EqDecision profiles.Row.
Proof. solve_decision. Defined.
#[global] Instance conversations_eq_dec : EqDecision conversations.Row.
Proof. solve_decision. Defined.
#[global] Instance conversation_members_eq_dec : EqDecision conversation_members.Row.
Proof. solve_decision. Defined.
#[global] Instance messages_eq_dec : EqDecision messages.Row.
Proof. solve_decision. Defined.
#[global] Instance stories_eq_dec : EqDecision stories.Row.
Proof. solve_decision. Defined.
#[global] Instance story_views_eq_dec : EqDecision story_views.Row.
Proof. solve_decision. Defined.
#[global] Instance contacts_eq_dec : EqDecision contacts.Row.
Proof. solve_decision. Defined.

Record Database := mkDatabase {
  t_profiles : list profiles.Row;
  t_conversations : list conversations.Row;
  t_conversation_members : list conversation_members.Row;
  t_messages : list messages.Row;
  t_stories : list stories.Row;
  t_story_views : list story_views.Row;
  t_contacts : list contacts.Row
}.

Definition with_conversations (l : list conversations.Row) (db : Database) :=
  mkDatabase (t_profiles db) l (t_conversation_members db) (t_messages db)
             (t_stories db) (t_story_views db) (t_contacts db).
Definition with_conversation_members (l : list conversation_members.Row) (db : Database) :=
  mkDatabase (t_profiles db) (t_conversations db) l (t_messages db)
             (t_stories db) (t_story_views db) (t_contacts db).
Definition with_messages (l : list messages.Row) (db : Database) :=
  mkDatabase (t_profiles db) (t_conversations db) (t_conversation_members db) l
             (t_stories db) (t_story_views db) (t_contacts db).
Definition with_story_views (l : list story_views.Row) (db : Database) :=
  mkDatabase (t_profiles db) (t_conversations db) (t_conversation_members db)
             (t_messages db) (t_stories db) l (t_contacts db).
Definition with_contacts (l : list contacts.Row) (db : Database) :=
  mkDatabase (t_profiles db) (t_conversations db) (t_conversation_members db)
             (t_messages db) (t_stories db) (t_story_views db) l.

(** ** Errors and the environment of a write *)

Inductive Err :=
  | JsError (message : string)
  | PostgrestError (code : string).

Definition unique_violation : string := "23505".
Definition foreign_key_violation : string := "23503".

Record Env := mkEnv {
  now : timestamptz;
  gen_random_uuid : uuid;
  fault : option Err
}.

(** [profiles!..._fkey(...)]: the row the foreign key points to. *)
Definition embed_profile (db : Database) (uid : uuid) : option profiles.Row :=
  List.find (λ p, String.eqb (profiles.id p) uid) (t_profiles db).

Definition has_profile (db : Database) (uid : uuid) : bool :=
  bool_decide (uid ∈ profiles.id <$> t_profiles db).

(** ** Writes to [conversations] and [conversation_members] *)

Definition insert_conversation (g : Env) (is_group : bool) (name : option string)
    (created_by : uuid) (db : Database) : Database * (Err + conversations.Row) :=
  match fault g with
  | Some e => (db, inl e)
  | None =>
    if bool_decide (gen_random_uuid g ∈ conversations.id <$> t_conversations db)
    then (db, inl (PostgrestError unique_violation))
    else if negb (has_profile db created_by)
    then (db, inl (PostgrestError foreign_key_violation))
    else
      let row := conversations.mk (gen_random_uuid g) is_group name None
                   (Some created_by) (Some (now g)) (Some (now g)) in
      (with_conversations (t_conversations db ++ [row]) db, inr row)
  end.

(** The columns the client supplies for a membership row. *)
Record MemberInsert := mkMemberInsert {
  mi_conversation_id : uuid;
  mi_user_id : uuid;
  mi_is_admin : bool
}.

Definition member_key (r : conversation_members.Row) : uuid * uuid :=
  (conversation_members.conversation_id r, conversation_members.user_id r).

(** One row of a multi-row insert, checked against the table so far. *)
Definition check_member (db : Database) (tbl : list conversation_members.Row)
    (m : MemberInsert) : option Err :=
  if bool_decide ((mi_conversation_id m, mi_user_id m) ∈ member_key <$> tbl)
  then Some (PostgrestError unique_violation)
  else if negb (bool_decide (mi_conversation_id m ∈ conversations.id <$> t_conversations db))
  then Some (PostgrestError foreign_key_violation)
  else if negb (has_profile db (mi_user_id m))
  then Some (PostgrestError foreign_key_violation)
  else None.

(** The stored row: [joined_at] takes its default [now()]. *)
Definition to_member_row (g : Env) (m : MemberInsert) : conversation_members.Row :=
  conversation_members.mk (mi_conversation_id m) (mi_user_id m) (mi_is_admin m)
                          (Some (now g)).

Fixpoint add_members (g : Env) (db : Database) (tbl : list conversation_members.Row)
    (ms : list MemberInsert) : Err + list conversation_members.Row :=
  match ms with
  | [] => inr tbl
  | m :: ms' =>
    match check_member db tbl m with
    | Some e => inl e
    | None =>
      add_members g db (tbl ++ [to_member_row g m]) ms'
    end
  end.

(** The statement is atomic: all rows are added or none. *)
Definition insert_members (g : Env) (ms : list MemberInsert) (db : Database)
    : Database * option Err :=
  match fault g with
  | Some e => (db, Some e)
  | None =>
    match add_members g db (t_conversation_members db) ms with
    | inl e => (db, Some e)
    | inr tbl => (with_conversation_members tbl db, None)
    end
  end.

(** ** [useConversations]: the conversation list hook *)

Module useConversations.

Record ConversationMember := mkMember {
  member_row : conversation_members.Row;
  profile : option profiles.Row
}.

Record Conversation := mkConversation {
  row : conversations.Row;
  members : list ConversationMember;
  last_message : option messages.Row;
  other_user : option profiles.Row
}.

Record State := mkState {
  conversations : list Conversation;
  loading : bool
}.

Record Result := mkResult {
  error : option Err;
  data : option conversations.Row
}.

(** [.order("updated_at", { ascending: false })] *)
Definition updated_desc (a b : conversations.Row) : bool :=
  ts_leb (conversations.updated_at b) (conversations.updated_at a).

(** [.order("created_at", { ascending: false })] on messages *)
Definition created_desc (a b : messages.Row) : bool :=
  ts_leb (messages.created_at b) (messages.created_at a).

Definition with_details (db : Database) (u : uuid)
    (allMembers : list ConversationMember) (conv : conversations.Row) : Conversation :=
  let members :=
    filter (λ m, conversation_members.conversation_id (member_row m)
                 = conversations.id conv) allMembers in
  let lastMsg :=
    head (sort_by created_desc
            (filter (λ m, messages.conversation_id m = conversations.id conv)
                    (t_messages db))) in
  let other_user :=
    if negb (conversations.is_group conv) && bool_decide (0 < length members)
    then
      match List.find (λ m, negb (String.eqb
               (conversation_members.user_id (member_row m)) u)) members with
      | Some otherMember => profile otherMember
      | None => None
      end
    else None in
  mkConversation conv members lastMsg other_user.

Definition fetchConversations (user : option uuid) (db : Database) : State :=
  match user with
  | None => mkState [] false
  | Some u =>
    let memberData :=
      filter (λ m, conversation_members.user_id m = u) (t_conversation_members db) in
    match memberData with
    | [] => mkState [] false
    | _ =>
      let conversationIds := conversation_members.conversation_id <$> memberData in
      let convData :=
        sort_by updated_desc
          (filter (λ c, conversations.id c ∈ conversationIds) (t_conversations db)) in
      let allMembers :=
        (λ m, mkMember m (embed_profile db (conversation_members.user_id m))) <$>
        filter (λ m, conversation_members.conversation_id m ∈ conversationIds)
               (t_conversation_members db) in
      mkState (with_details db u allMembers <$> convData) false
    end
  end.

(** [createConversation(memberIds, isGroup = false, name?)]: [g1] is the
    environment of the insert into [conversations], [g2] that of the insert
    into [conversation_members]. *)
Definition createConversation (g1 g2 : Env) (user : option uuid)
    (memberIds : list uuid) (isGroup : bool) (name : option string)
    (db : Database) (st : State) : Database * State * Result :=
  match user with
  | None => (db, st, mkResult (Some (JsError "Not authenticated")) None)
  | Some u =>
    match insert_conversation g1 isGroup (if isGroup then name else None) u db with
    | (db1, inl convError) => (db1, st, mkResult (Some convError) None)
    | (db1, inr conv) =>
      let allMemberIds := spread_new_Set (u :: memberIds) in
      let members :=
        (λ id, mkMemberInsert (conversations.id conv) id (bool_decide (id = u)))
          <$> allMemberIds in
      match insert_members g2 members db1 with
      | (db2, Some membersError) => (db2, st, mkResult (Some membersError) None)
      | (db2, None) =>
        (db2, fetchConversations user db2, mkResult None (Some conv))
      end
    end
  end.

End useConversations.

(** ** Constraints of the schema, as predicates on a database *)



(** [UNIQUE(user_id, contact_id)] on [contacts] *)
Definition contact_key (r : contacts.Row) : uuid * uuid :=
  (contacts.user_id r, contacts.contact_id r).

Definition unique_contacts (db : Database) : Prop :=
  NoDup (contact_key <$> t_contacts db).

(** ** Writes to [contacts] *)

Definition insert_contact (g : Env) (user_id contact_id : uuid) (status : string)
    (db : Database) : Database * option Err :=
  match fault g with
  | Some e => (db, Some e)
  | None =>
    if bool_decide (gen_random_uuid g ∈ contacts.id <$> t_contacts db)
    then (db, Some (PostgrestError unique_violation))
    else if bool_decide ((user_id, contact_id) ∈ contact_key <$> t_contacts db)
    then (db, Some (PostgrestError unique_violation))
    else if negb (has_profile db user_id && has_profile db contact_id)
    then (db, Some (PostgrestError foreign_key_violation))
    else
      (with_contacts
         (t_contacts db ++
            [contacts.mk (gen_random_uuid g) user_id contact_id status (Some (now g))])
         db, None)
  end.

(** [.update({ status }).eq("id", contactId)] *)
Definition update_contact_status (g : Env) (contactId : uuid) (status : string)
    (db : Database) : Database * option Err :=
  match fault g with
  | Some e => (db, Some e)
  | None =>
    (with_contacts
       ((λ c, if String.eqb (contacts.id c) contactId
              then contacts.mk (contacts.id c) (contacts.user_id c)
                     (contacts.contact_id c) status (contacts.created_at c)
              else c) <$> t_contacts db)
       db, None)
  end.


(** ** Toasts *)

Record Toast := mkToast {
  title : string;
  description : option string;
  destructive : bool
}.

(** ** [ContactsView]: the contact lists *)

Module ContactsView.

Record Contact := mkContact {
  row : contacts.Row;
  contact_profile : option profiles.Row;
  user_profile : option profiles.Row
}.

Record State := mkState {
  contacts : list Contact;
  pendingReceived : list Contact;
  pendingSent : list Contact;
  loading : bool
}.

(** Rows with [contact_profile:profiles!contacts_contact_id_fkey(...)]. *)
Definition with_contact_profile (db : Database) (c : contacts.Row) : Contact :=
  mkContact c (embed_profile db (contacts.contact_id c)) None.

(** Rows with [user_profile:profiles!contacts_user_id_fkey(...)]. *)
Definition with_user_profile (db : Database) (c : contacts.Row) : Contact :=
  mkContact c None (embed_profile db (contacts.user_id c)).

Definition fetchContacts (user : option uuid) (db : Database) (st : State) : State :=
  match user with
  | None => st
  | Some u =>
    let acceptedAsUser :=
      with_contact_profile db <$>
        filter (λ c, contacts.user_id c = u ∧ contacts.status c = "accepted")
               (t_contacts db) in
    let acceptedAsContact :=
      with_user_profile db <$>
        filter (λ c, contacts.contact_id c = u ∧ contacts.status c = "accepted")
               (t_contacts db) in
    let allAccepted :=
      acceptedAsUser ++
      ((λ c, mkContact (row c) (user_profile c) (user_profile c))
         <$> acceptedAsContact) in
    let received :=
      with_user_profile db <$>
        filter (λ c, contacts.contact_id c = u ∧ contacts.status c = "pending")
               (t_contacts db) in
    let sent :=
      with_contact_profile db <$>
        filter (λ c, contacts.user_id c = u ∧ contacts.status c = "pending")
               (t_contacts db) in
    mkState allAccepted received sent false
  end.

Definition handleAccept (g : Env) (user : option uuid) (contactId : uuid)
    (db : Database) (st : State) : Database * State * Toast :=
  match update_contact_status g contactId "accepted" db with
  | (db', Some _) =>
      (db', st, mkToast "Erreur" (Some "Impossible d'accepter la demande") true)
  | (db', None) =>
      (db', fetchContacts user db' st, mkToast "Demande acceptée" None false)
  end.


(** How many entries of a contact list show the profile of [b]. *)
Definition listed (b : uuid) (l : list Contact) : nat :=
  length (filter (λ c, profiles.id <$> contact_profile c = Some b) l).

End ContactsView.

(** ** [AddContactDialog]: sending a contact request *)

Module AddContactDialog.

Record State := mkState {
  users : list profiles.Row;
  sendingTo : option uuid
}.

(** What the handler shows and whether it calls [onAdded]. *)
Record Outcome := mkOutcome {
  toast : option Toast;
  onAdded : bool
}.

Definition already_requested : Toast :=
  mkToast "Demande déjà envoyée"
          (Some "Vous avez déjà envoyé une demande à cet utilisateur") false.
Definition generic_error : Toast :=
  mkToast "Erreur" (Some "Impossible d'envoyer la demande") true.
Definition request_sent : Toast := mkToast "Demande envoyée !" None false.

Definition handleSendRequest (g : Env) (user : option uuid) (profileId : uuid)
    (db : Database) (st : State) : Database * State * Outcome :=
  match user with
  | None => (db, st, mkOutcome None false)
  | Some u =>
    match insert_contact g u profileId "pending" db with
    | (db', Some (PostgrestError code)) =>
        if String.eqb code "23505"
        then (db', mkState (users st) None, mkOutcome (Some already_requested) false)
        else (db', mkState (users st) None, mkOutcome (Some generic_error) false)
    | (db', Some (JsError _)) =>
        (db', mkState (users st) None, mkOutcome (Some generic_error) false)
    | (db', None) =>
        (db',
         mkState (filter (λ p, profiles.id p ≠ profileId) (users st)) None,
         mkOutcome (Some request_sent) true)
    end
  end.

End AddContactDialog.

(** ** Writes to [story_views] *)

(** [UNIQUE(story_id, viewer_id)] on [story_views] *)
Definition view_key (r : story_views.Row) : uuid * uuid :=
  (story_views.story_id r, story_views.viewer_id r).


(** [.upsert({ story_id, viewer_id }, { onConflict: "story_id,viewer_id" })]:
    [INSERT ... ON CONFLICT (story_id, viewer_id) DO UPDATE] setting the
    supplied columns on the row in conflict. *)
Definition upsert_story_view (g : Env) (story_id viewer_id : uuid) (db : Database)
    : Database * option Err :=
  match fault g with
  | Some e => (db, Some e)
  | None =>
    if bool_decide ((story_id, viewer_id) ∈ view_key <$> t_story_views db)
    then
      (with_story_views
         ((λ v, if bool_decide (view_key v = (story_id, viewer_id))
                then story_views.mk story_id viewer_id (story_views.viewed_at v)
                else v) <$> t_story_views db)
         db, None)
    else if negb (bool_decide (story_id ∈ stories.id <$> t_stories db)
                  && has_profile db viewer_id)
    then (db, Some (PostgrestError foreign_key_violation))
    else
      (with_story_views
         (t_story_views db ++ [story_views.mk story_id viewer_id (Some (now g))])
         db, None)
  end.

(** ** [StoriesView]: the stories listing *)

Module StoriesView.

(** The columns selected from the author's profile. *)
Record StoryUser := mkStoryUser {
  id : uuid;
  username : option string;
  display_name : option string;
  avatar_url : option string
}.

Record Story := mkStory {
  story_row : stories.Row;
  user : option StoryUser
}.

Record GroupedStories := mkGrouped {
  g_user : StoryUser;
  g_stories : list Story;
  hasViewed : bool
}.

#[global] Instance StoryUser_eq_dec : EqDecision StoryUser.
Proof. solve_decision. Defined.
#[global] Instance Story_eq_dec : EqDecision Story.
Proof. solve_decision. Defined.
#[global] Instance GroupedStories_eq_dec : EqDecision GroupedStories.
Proof. solve_decision. Defined.

Record State := mkState {
  groupedStories : list GroupedStories;
  myStories : list Story;
  loading : bool
}.

Definition story_user (p : profiles.Row) : StoryUser :=
  mkStoryUser (profiles.id p) (profiles.username p) (profiles.display_name p)
              (profiles.avatar_url p).

(** [user:profiles!stories_user_id_fkey(id, username, display_name, avatar_url)] *)
Definition embed_user (db : Database) (uid : uuid) : option StoryUser :=
  story_user <$> embed_profile db uid.

Definition user_id (s : Story) : uuid := stories.user_id (story_row s).
Definition story_id (s : Story) : uuid := stories.id (story_row s).

(** [.order("created_at", { ascending: false })] *)
Definition created_desc (a b : stories.Row) : bool :=
  ts_leb (stories.created_at b) (stories.created_at a).

(** [.gt("expires_at", new Date().toISOString())] *)
Definition active (now : timestamptz) (s : stories.Row) : Prop :=
  ts_gt (stories.expires_at s) now = true.

#[global] Instance active_dec now s : Decision (active now s).
Proof. unfold active. apply _. Defined.

(** [grouped: Record<string, GroupedStories>]: the entries in insertion
    order, which is the order of [Object.values] for keys that are uuids. *)
Definition Grouped := list (uuid * GroupedStories).

(** [grouped[story.user_id]] is created when missing, then
    [.stories.push(story)]. *)
Fixpoint push_story (story : Story) (su : StoryUser) (grouped : Grouped) : Grouped :=
  match grouped with
  | [] => [(user_id story, mkGrouped su [story] false)]
  | (k, g) :: rest =>
    if String.eqb k (user_id story)
    then (k, mkGrouped (g_user g) (g_stories g ++ [story]) (hasViewed g)) :: rest
    else (k, g) :: push_story story su rest
  end.

Definition group_step (grouped : Grouped) (story : Story) : Grouped :=
  match user story with
  | Some su => push_story story su grouped
  | None => grouped
  end.

(** What the grouping loop maintains after the stories [seen], all of
    which carry the embedded user [f (user_id _)]: one entry per author
    with a profile, holding that author's stories in the order seen. *)
Definition grouped_of (f : uuid → option StoryUser) (seen : list Story)
    (grouped : Grouped) : Prop :=
  NoDup (fst <$> grouped) ∧
  (∀ k g, (k, g) ∈ grouped →
     f k = Some (g_user g) ∧
     g_stories g = filter (λ y, user_id y = k) seen ∧
     g_stories g ≠ [] ∧
     hasViewed g = false) ∧
  (∀ y, y ∈ seen → is_Some (f (user_id y)) → user_id y ∈ fst <$> grouped).

(** The comparator of "unviewed first". *)
Definition unviewed_first (a b : GroupedStories) : Z :=
  if Bool.eqb (hasViewed a) (hasViewed b) then 0%Z
  else if hasViewed a then 1%Z else (-1)%Z.

(** [now] is the client's [new Date()] at the time of the fetch. *)
Definition fetchStories (user : option uuid) (now : timestamptz) (db : Database)
    (st : State) : State :=
  match user with
  | None => st
  | Some u =>
    let stories :=
      (λ s, mkStory s (embed_user db (stories.user_id s))) <$>
        sort_by created_desc (filter (active now) (t_stories db)) in
    let mine := filter (λ s, user_id s = u) stories in
    let othersStories := filter (λ s, user_id s ≠ u) stories in
    let grouped := foldl group_step [] othersStories in
    let storyIds := story_id <$> othersStories in
    let grouped :=
      if bool_decide (0 < length storyIds)
      then
        let views :=
          filter (λ v, story_views.viewer_id v = u ∧ story_views.story_id v ∈ storyIds)
                 (t_story_views db) in
        let viewedIds : gset uuid := list_to_set (story_views.story_id <$> views) in
        (λ kg, (kg.1, mkGrouped (g_user kg.2) (g_stories kg.2)
                        (forallb (λ s, bool_decide (story_id s ∈ viewedIds))
                                 (g_stories kg.2)))) <$> grouped
      else grouped in
    let sortedGroups := js_sort unviewed_first (snd <$> grouped) in
    mkState sortedGroups mine false
  end.

End StoriesView.

(** ** [StoryViewer]: progress and the viewed mark *)

Module StoryViewer.
Import StoriesView.

Record Props := mkProps {
  stories : list Story;
  storyUser : StoryUser;
  onPrevUser : bool;   (* whether the optional callback is provided *)
  onNextUser : bool
}.

Record State := mkState {
  currentIndex : Z;
  progress : Z;
  isPaused : bool
}.

Inductive Callback := PrevUser | NextUser | Close.

Definition STORY_DURATION : Z := 5000.

(** [stories[currentIndex]] *)
Definition currentStory (p : Props) (st : State) : option Story :=
  if (currentIndex st <? 0)%Z then None
  else stories p !! Z.to_nat (currentIndex st).

(** The "mark story as viewed" effect: the upsert it fires, if any. *)
Definition markViewed (user : option uuid) (p : Props) (st : State)
    : option (uuid * uuid) :=
  match user, currentStory p st with
  | Some u, Some story =>
    if String.eqb (id (storyUser p)) u then None
    else Some (story_id story, u)
  | _, _ => None
  end.

(** One run of the effect against the gateway; the reply is ignored. *)
Definition view (g : Env) (user : option uuid) (p : Props) (st : State)
    (db : Database) : Database :=
  match markViewed user p st with
  | Some (sid, vid) => (upsert_story_view g sid vid db).1
  | None => db
  end.

Definition goToNext (p : Props) (st : State) : State * list Callback :=
  if (currentIndex st <? Z.of_nat (length (stories p)) - 1)%Z
  then (mkState (currentIndex st + 1) 0 (isPaused st), [])
  else if onNextUser p then (st, [NextUser])
  else (st, [Close]).

Definition goToPrev (p : Props) (st : State) : State * list Callback :=
  if (0 <? currentIndex st)%Z
  then (mkState (currentIndex st - 1) 0 (isPaused st), [])
  else if onPrevUser p then (st, [PrevUser])
  else (st, []).

(** One firing of the 100 ms interval; the interval is not armed while
    paused. The step [100 / (STORY_DURATION / 100)] is exactly 2, so the
    progress values are integers. *)
Definition tick (p : Props) (st : State) : State * list Callback :=
  if isPaused st then (st, [])
  else
    let newProgress := (progress st + 100 / (STORY_DURATION / 100))%Z in
    if (100 <=? newProgress)%Z
    then
      let '(st', calls) := goToNext p st in
      (mkState (currentIndex st') 0 (isPaused st'), calls)
    else (mkState (currentIndex st) newProgress (isPaused st), []).

End StoryViewer.

(** ** [useMessages]: the message list of one conversation *)


Module useMessages.

(** The columns selected from the sender's profile. *)
Record Sender := mkSender {
  id : uuid;
  username : option string;
  display_name : option string;
  avatar_url : option string
}.

Record Message := mkMessage {
  row : messages.Row;
  sender : option Sender
}.

Record State := mkState {
  messages : list Message;
  loading : bool
}.





End useMessages.

(** ** [ChatView]: attachments, sending and deleting *)

Module ChatView.

Record File := mkFile {
  name : string;
  size : Z;
  type : string
}.

Record UploadResult := mkUploadResult {
  url : string;
  fileName : string;
  fileType : string
}.

Record State := mkState {
  newMessage : string;
  sending : bool;
  selectedFile : option File
}.

(** What a handler asks of the outside: toasts and the two network calls
    of the view. *)
Inductive Effect :=
  | ShowToast (t : Toast)
  | StopTyping
  | UploadChatAttachment (f : File)
  | SendMessage (content type : string) (fileUrl fileName : option string).

Definition file_too_large : Toast :=
  mkToast "Fichier trop volumineux" (Some "La taille maximale est de 10 Mo") true.
Definition send_failed : Toast :=
  mkToast "Erreur" (Some "Impossible d'envoyer le message") true.

(** [files] is [e.target.files]. *)
Definition handleFileSelect (files : list File) (st : State) : State * list Effect :=
  match head files with
  | Some file =>
    if (10 * 1024 * 1024 <? size file)%Z
    then (st, [ShowToast file_too_large])
    else (mkState (newMessage st) (sending st) (Some file), [])
  | None => (st, [])
  end.

Section Send.
(** [String.prototype.trim] and the reply of the storage upload. *)
Variable trim : string → string.
Variable uploadChatAttachment : File → Err + UploadResult.

(** [a || b] on strings: the empty string is falsy. *)
Definition or_else (a b : string) : string :=
  if String.eqb a "" then b else a.

Definition handleSend (st : State) : State * list Effect :=
  if (String.eqb (trim (newMessage st)) "" && bool_decide (selectedFile st = None))
     || sending st
  then (st, [])
  else
    match selectedFile st with
    | Some file =>
      match uploadChatAttachment file with
      | inl _ =>
          (mkState (newMessage st) false (selectedFile st),
           [StopTyping; UploadChatAttachment file; ShowToast send_failed])
      | inr data =>
          (mkState "" false None,
           [StopTyping; UploadChatAttachment file;
            SendMessage
              (or_else (trim (newMessage st)) (or_else (fileName data) "Fichier"))
              (if String.prefix "image/" (type file) then "image" else "file")
              (Some (url data)) (Some (fileName data))])
      end
    | None =>
        (mkState "" false None,
         [StopTyping;
          SendMessage (or_else (trim (newMessage st)) "Fichier") "text" None None])
    end.
End Send.


End ChatView.

(** ** A small database used to exercise the model *)

Module Fixtures.
Definition alice : uuid := "a11ce".
Definition bob : uuid := "b0b".
Definition carol : uuid := "ca401".

Definition profile_of (u : uuid) : profiles.Row :=
  profiles.mk u (Some u) (Some u) None (Some false).

(** Alice and Carol already share a conversation, last touched at 100. *)
Definition db0 : Database := {|
  t_profiles := [profile_of alice; profile_of bob; profile_of carol];
  t_conversations :=
    [conversations.mk "c-1" false None None (Some alice) (Some 50%Z) (Some 100%Z)];
  t_conversation_members :=
    [conversation_members.mk "c-1" alice true (Some 50%Z);
     conversation_members.mk "c-1" carol false (Some 50%Z)];
  t_messages := [];
  t_stories := [];
  t_story_views := [];
  t_contacts := []
|}.

Definition env_conv : Env := mkEnv 200%Z "c-2" None.
Definition env_members : Env := mkEnv 201%Z "unused" None.

Definition st0 : useConversations.State := useConversations.mkState [] true.


(** Alice and Bob each send the other a request before seeing the other's,
    then each accepts the request received. *)
Definition dialog0 : AddContactDialog.State := AddContactDialog.mkState [] None.
Definition contacts0 : ContactsView.State := ContactsView.mkState [] [] [] true.

Definition db_requests : Database :=
  let db1 := (AddContactDialog.handleSendRequest (mkEnv 10%Z "k-1" None)
                (Some alice) bob db0 dialog0).1.1 in
  (AddContactDialog.handleSendRequest (mkEnv 11%Z "k-2" None)
     (Some bob) alice db1 dialog0).1.1.

(** Only Alice asks, and Bob accepts. *)
Definition db_accepted : Database :=
  let db1 := (AddContactDialog.handleSendRequest (mkEnv 10%Z "k-1" None)
                (Some alice) bob db0 dialog0).1.1 in
  (ContactsView.handleAccept (mkEnv 12%Z "-" None)
     (Some bob) "k-1" db1 contacts0).1.1.

Definition db_mutual : Database :=
  let db1 := (ContactsView.handleAccept (mkEnv 12%Z "-" None)
                (Some alice) "k-2" db_requests contacts0).1.1 in
  (ContactsView.handleAccept (mkEnv 13%Z "-" None)
     (Some bob) "k-1" db1 contacts0).1.1.

(** Stories: two by Bob, one by Alice, and two by Carol of which one
    expired at 90. Alice has seen the first of Bob's. *)
Definition story (i author : uuid) (expires created : Z) : stories.Row :=
  stories.mk i author (Some i) None None (Some expires) (Some created).

Definition db_stories : Database := {|
  t_profiles := t_profiles db0;
  t_conversations := t_conversations db0;
  t_conversation_members := t_conversation_members db0;
  t_messages := [];
  t_stories :=
    [story "s-1" bob 1000 10; story "s-2" bob 1000 20; story "s-3" carol 90 5;
     story "s-4" alice 1000 30; story "s-5" carol 1000 40];
  t_story_views := [story_views.mk "s-1" alice (Some 50%Z)];
  t_contacts := []
|}.

Definition stories0 : StoriesView.State := StoriesView.mkState [] [] true.

(** Alice looks at Bob's sequence, on its second story. *)
Definition bob_user : StoriesView.StoryUser :=
  StoriesView.story_user (profile_of bob).
Definition bob_sequence : list StoriesView.Story :=
  [StoriesView.mkStory (story "s-2" bob 1000 20) (Some bob_user);
   StoriesView.mkStory (story "s-1" bob 1000 10) (Some bob_user)].
Definition bob_group : StoriesView.GroupedStories :=
  StoriesView.mkGrouped bob_user bob_sequence false.
Definition viewer_props : StoryViewer.Props :=
  StoryViewer.mkProps bob_sequence bob_user true true.

Definition on_first : StoryViewer.State := StoryViewer.mkState 0 0 false.
Definition at_end : StoryViewer.State := StoryViewer.mkState 1 98 false.

(** Two messages in the conversation of Alice and Carol. *)
Definition message (i sender : uuid) (text : string) (created : Z) : messages.Row :=
  messages.mk i "c-1" (Some sender) (Some text) "text" None None false
              (Some created) (Some created).

Definition db_chat : Database :=
  with_messages [message "m-1" alice "salut" 110; message "m-2" carol "hello" 120] db0.


Definition big_file : ChatView.File :=
  ChatView.mkFile "film.mp4" (10 * 1024 * 1024 + 1) "video/mp4".
Definition small_file : ChatView.File :=
  ChatView.mkFile "photo.png" (10 * 1024 * 1024) "image/png".
Definition view0 : ChatView.State := ChatView.mkState "" false None.
End Fixtures.

(** ** [StoriesView]: opening the viewer and moving between authors *)

(** [arr.findIndex(p)]: the first position that passes, or -1. *)
Fixpoint findIndex_from {A} (p : A → bool) (l : list A) (i : Z) : Z :=
  match l with
  | [] => (-1)%Z
  | x :: l' => if p x then i else findIndex_from p l' (i + 1)%Z
  end.

Definition findIndex {A} (p : A → bool) (l : list A) : Z := findIndex_from p l 0.

Module StoriesNav.
Import StoriesView.

(** [viewingStories]: what the mounted viewer is given. *)
Record Viewing := mkViewing {
  v_stories : list Story;
  v_user : StoryUser;
  v_index : Z
}.

Record State := mkState {
  viewingStories : option Viewing;
  showCreateDialog : bool
}.

Definition handleViewMyStories (myStories : list Story) (profile : option profiles.Row)
    (st : State) : State :=
  match myStories, profile with
  | _ :: _, Some p => mkState (Some (mkViewing myStories (story_user p) 0)) (showCreateDialog st)
  | _, _ => mkState (viewingStories st) true
  end.

Definition handleViewUserStories (group : GroupedStories) (index : Z) (st : State) : State :=
  mkState (Some (mkViewing (g_stories group) (g_user group) index)) (showCreateDialog st).

Definition currentUserIndex (groupedStories : list GroupedStories) (v : Viewing) : Z :=
  findIndex (λ g, String.eqb (id (g_user g)) (id (v_user v))) groupedStories.

(** [groupedStories[i]] for a number [i]. *)
Definition group_at (groupedStories : list GroupedStories) (i : Z) : option GroupedStories :=
  if (i <? 0)%Z then None else groupedStories !! Z.to_nat i.

(** Reading a field of [undefined] throws and leaves the state as it is;
    the guards make that branch unreachable. *)
Definition handleNextUser (groupedStories : list GroupedStories)
    (viewing : option Viewing) : option Viewing :=
  match viewing with
  | None => None
  | Some v =>
    let i := currentUserIndex groupedStories v in
    if (i <? Z.of_nat (length groupedStories) - 1)%Z
    then
      match group_at groupedStories (i + 1) with
      | Some nextGroup => Some (mkViewing (g_stories nextGroup) (g_user nextGroup) 0)
      | None => viewing
      end
    else None
  end.

Definition handlePrevUser (groupedStories : list GroupedStories)
    (viewing : option Viewing) : option Viewing :=
  match viewing with
  | None => None
  | Some v =>
    let i := currentUserIndex groupedStories v in
    if (0 <? i)%Z
    then
      match group_at groupedStories (i - 1) with
      | Some prevGroup => Some (mkViewing (g_stories prevGroup) (g_user prevGroup) 0)
      | None => viewing
      end
    else viewing
  end.

(** The props [StoriesView] gives the viewer: both optional callbacks are
    provided. *)
Definition props_of (v : Viewing) : StoryViewer.Props :=
  StoryViewer.mkProps (v_stories v) (v_user v) true true.

(** The viewer as mounted by [StoriesView]: it is rendered at the same place
    while [viewingStories] is set, so its state lives on when only the props
    change, and starts from [initialIndex = 0] when it is mounted. *)
Record Session := mkSession {
  viewing : option Viewing;
  viewer : StoryViewer.State
}.

Definition mounted : StoryViewer.State := StoryViewer.mkState 0 0 false.

Inductive Event :=
  | Tick            (* the 100 ms interval *)
  | ArrowRight      (* key, arrow button or right tap zone *)
  | ArrowLeft       (* key, arrow button or left tap zone *)
  | Escape          (* key or close button *)
  | Hold            (* mouse or touch down *)
  | Release.        (* mouse or touch up *)

Definition call (groupedStories : list GroupedStories) (viewing : option Viewing)
    (c : StoryViewer.Callback) : option Viewing :=
  match c with
  | StoryViewer.NextUser => handleNextUser groupedStories viewing
  | StoryViewer.PrevUser => handlePrevUser groupedStories viewing
  | StoryViewer.Close => None
  end.

Definition set_paused (b : bool) (st : StoryViewer.State) : StoryViewer.State :=
  StoryViewer.mkState (StoryViewer.currentIndex st) (StoryViewer.progress st) b.

Definition step (groupedStories : list GroupedStories) (s : Session) (e : Event) : Session :=
  match viewing s with
  | None => s
  | Some v =>
    let '(st', calls) :=
      match e with
      | Tick => StoryViewer.tick (props_of v) (viewer s)
      | ArrowRight => StoryViewer.goToNext (props_of v) (viewer s)
      | ArrowLeft => StoryViewer.goToPrev (props_of v) (viewer s)
      | Escape => (viewer s, [StoryViewer.Close])
      | Hold => (set_paused true (viewer s), [])
      | Release => (set_paused false (viewer s), [])
      end in
    mkSession (foldl (call groupedStories) (viewing s) calls) st'
  end.

(** Opening the viewer on a group mounts it. *)
Definition open (group : GroupedStories) (index : Z) : Session :=
  mkSession (Some (mkViewing (g_stories group) (g_user group) index)) mounted.

End StoriesNav.

(** ** Searching the lists: [ConversationList], [ContactsView], [NewChatDialog] *)

(** JS [a || b] on nullable strings: [null], [undefined] and [""] are falsy. *)
Definition js_or (a b : option string) : option string :=
  match a with
  | Some s => if String.eqb s "" then b else a
  | None => b
  end.


Module ConversationList.
Import useConversations.

Section Search.
(** [String.prototype.toLowerCase] *)
Variable toLowerCase : string → string.

(** The name the search box is matched against. *)
Definition search_name (conv : Conversation) : option string :=
  if conversations.is_group (row conv)
  then conversations.name (row conv)
  else js_or (other_user conv ≫= profiles.display_name)
             (other_user conv ≫= profiles.username).


End Search.


End ConversationList.

Module ContactsSearch.
Import ContactsView.

Section Search.
Variable toLowerCase : string → string.

(** [c.contact_profile?.display_name || c.contact_profile?.username || ""] *)
Definition search_name (c : Contact) : string :=
  default "" (js_or (js_or (contact_profile c ≫= profiles.display_name)
                           (contact_profile c ≫= profiles.username))
                    (Some "")).

End Search.

(** [c.contact_profile?.id || c.contact_id] *)
Definition contact_ref (c : Contact) : uuid :=
  match contact_profile c with
  | Some p => if String.eqb (profiles.id p) "" then contacts.contact_id (row c)
              else profiles.id p
  | None => contacts.contact_id (row c)
  end.

(** The ids handed to [AddContactDialog]; [.filter(Boolean)] drops [""]. *)
Definition existingContactIds (st : State) : list uuid :=
  filter (λ x, x ≠ "")
    ((contact_ref <$> contacts st) ++
     ((λ c, contacts.contact_id (row c)) <$> pendingSent st) ++
     ((λ c, contacts.user_id (row c)) <$> pendingReceived st)).

End ContactsSearch.

(** ** [NewChatDialog]: choosing the members of a new conversation *)

Module NewChatDialog.

Record State := mkState {
  search : string;
  users : list profiles.Row;
  selectedUsers : list uuid;
  isGroup : bool;
  groupName : string;
  loading : bool
}.

Record Outcome := mkOutcome {
  toast : Toast;
  closed : bool   (* whether [onClose] was called *)
}.

Definition select_someone : Toast :=
  mkToast "Erreur" (Some "Sélectionnez au moins un utilisateur") true.
Definition name_the_group : Toast :=
  mkToast "Erreur" (Some "Entrez un nom pour le groupe") true.
Definition create_failed : Toast :=
  mkToast "Erreur" (Some "Impossible de créer la conversation") true.
Definition created : Toast := mkToast "Succès" (Some "Conversation créée") false.

Definition toggle (userId : uuid) (prev : list uuid) : list uuid :=
  if decide (userId ∈ prev) then filter (λ id, id ≠ userId) prev
  else prev ++ [userId].

Definition toggleUser (userId : uuid) (st : State) : State :=
  mkState (search st) (users st) (toggle userId (selectedUsers st)) (isGroup st)
          (groupName st) (loading st).

(** The effect on [open]: closing empties the form. *)
Definition reset (st : State) : State :=
  mkState "" (users st) [] false "" (loading st).

Section Create.
Variable trim : string → string.

(** [onCreateConversation] is [createConversation] of the conversations
    hook, as [Index] wires it. *)
Definition handleCreate (g1 g2 : Env) (user : option uuid) (db : Database)
    (hook : useConversations.State) (st : State)
    : Database * useConversations.State * State * Outcome :=
  match selectedUsers st with
  | [] => (db, hook, st, mkOutcome select_someone false)
  | _ :: _ =>
    if isGroup st && String.eqb (trim (groupName st)) ""
    then (db, hook, st, mkOutcome name_the_group false)
    else
      let shouldBeGroup := isGroup st || bool_decide (1 < length (selectedUsers st)) in
      match useConversations.createConversation g1 g2 user (selectedUsers st)
              shouldBeGroup
              (if shouldBeGroup
               then Some (ChatView.or_else (trim (groupName st)) "Nouveau groupe")
               else None)
              db hook with
      | (db', hook', r) =>
        match useConversations.error r with
        | Some _ =>
            (db', hook',
             mkState (search st) (users st) (selectedUsers st) (isGroup st)
                     (groupName st) false,
             mkOutcome create_failed false)
        | None =>
            (db', hook',
             reset (mkState (search st) (users st) (selectedUsers st) (isGroup st)
                            (groupName st) false),
             mkOutcome created true)
        end
      end
  end.
End Create.

End NewChatDialog.

(** ** [useMessages.sendMessage]: insert, then touch the conversation *)

Definition insert_message (g : Env) (conversation_id sender_id : uuid)
    (content message_type : string) (file_url file_name : option string)
    (db : Database) : Database * option Err :=
  match fault g with
  | Some e => (db, Some e)
  | None =>
    if bool_decide (gen_random_uuid g ∈ messages.id <$> t_messages db)
    then (db, Some (PostgrestError unique_violation))
    else if negb (bool_decide (conversation_id ∈ conversations.id <$> t_conversations db)
                  && has_profile db sender_id)
    then (db, Some (PostgrestError foreign_key_violation))
    else
      (with_messages
         (t_messages db ++
            [messages.mk (gen_random_uuid g) conversation_id (Some sender_id)
               (Some content) message_type file_url file_name false
               (Some (now g)) (Some (now g))])
         db, None)
  end.

(** [.update({ updated_at }).eq("id", conversationId)]: the trigger
    [update_conversations_updated_at] replaces the value the client sends
    by [now()]. *)
Definition touch_conversation (g : Env) (client_time : timestamptz)
    (conversationId : uuid) (db : Database) : Database * option Err :=
  match fault g with
  | Some e => (db, Some e)
  | None =>
    (with_conversations
       ((λ c, if String.eqb (conversations.id c) conversationId
              then conversations.mk (conversations.id c) (conversations.is_group c)
                     (conversations.name c) (conversations.image_url c)
                     (conversations.created_by c) (conversations.created_at c)
                     (Some (now g))
              else c) <$> t_conversations db)
       db, None)
  end.

Module SendMessage.

(** [g1] is the environment of the insert, [g2] that of the update, whose
    outcome is ignored; [client_time] is the client's [new Date()]. *)
Definition sendMessage (g1 g2 : Env) (client_time : timestamptz)
    (conversationId user : option uuid) (content type : string)
    (fileUrl fileName : option string) (db : Database) : Database * option Err :=
  match conversationId, user with
  | Some cid, Some u =>
    match insert_message g1 cid u content type fileUrl fileName db with
    | (db1, Some e) => (db1, Some e)
    | (db1, None) => ((touch_conversation g2 client_time cid db1).1, None)
    end
  | _, _ => (db, Some (JsError "Not authenticated or no conversation"))
  end.

End SendMessage.

(** ** [useFileUpload]: storing a file under the user's folder *)

Module useFileUpload.
Import ChatView.

(** [name.split(".")]: the segments between dots; never empty. *)
Fixpoint split_dot (s : string) : list string :=
  match s with
  | EmptyString => [EmptyString]
  | String c s' =>
    match split_dot s' with
    | seg :: rest =>
      if Ascii.eqb c "."%char then EmptyString :: seg :: rest
      else String c seg :: rest
    | [] => []
    end
  end.

(** A string without ["."]. *)
Fixpoint dot_free (s : string) : bool :=
  match s with
  | EmptyString => true
  | String c s' => negb (Ascii.eqb c "."%char) && dot_free s'
  end.

(** [file.name.split(".").pop()] *)
Definition fileExt (name : string) : string := default "" (last (split_dot name)).

(** A number in a template string. *)
Definition decimal (n : N) : string := NilZero.string_of_uint (N.to_uint n).

Section Upload.
(** The storage service: [.upload(path, file)] under a bucket, and the
    public address of a path. *)
Variable upload : string → string → File → option Err.
Variable getPublicUrl : string → string → string.

(** [date_now] is [Date.now()]. *)
Definition uploadFile (date_now : N) (user : option uuid) (file : File) (bucket : string)
    : Err + UploadResult :=
  match user with
  | None => inl (JsError "Not authenticated")
  | Some u =>
    let fileName := u +:+ "/" +:+ decimal date_now +:+ "." +:+ fileExt (name file) in
    match upload bucket fileName file with
    | Some uploadError => inl uploadError
    | None => inr (mkUploadResult (getPublicUrl bucket fileName) (name file) (type file))
    end
  end.

Definition uploadAvatar date_now user file := uploadFile date_now user file "avatars".
Definition uploadChatAttachment date_now user file :=
  uploadFile date_now user file "chat-attachments".
Definition uploadStoryMedia date_now user file := uploadFile date_now user file "stories".
End Upload.

End useFileUpload.

(** ** [CreateStoryDialog]: publishing a story *)

(** Timestamps count microseconds; the default of [expires_at] is
    [now() + interval '24 hours']. *)
Definition interval_24_hours : Z := 24 * 60 * 60 * 1000000.

Definition insert_story (g : Env) (user_id : uuid) (content image_url
    background_color : option string) (db : Database) : Database * option Err :=
  match fault g with
  | Some e => (db, Some e)
  | None =>
    if bool_decide (gen_random_uuid g ∈ stories.id <$> t_stories db)
    then (db, Some (PostgrestError unique_violation))
    else if negb (has_profile db user_id)
    then (db, Some (PostgrestError foreign_key_violation))
    else
      (mkDatabase (t_profiles db) (t_conversations db) (t_conversation_members db)
         (t_messages db)
         (t_stories db ++
            [stories.mk (gen_random_uuid g) user_id content image_url background_color
               (Some (now g + interval_24_hours)%Z) (Some (now g))])
         (t_story_views db) (t_contacts db), None)
  end.

Module CreateStoryDialog.
Import ChatView.

Inductive Mode := text | image.

Definition BACKGROUND_COLORS : list string :=
  ["#1a1a2e"; "#16213e"; "#0f3460"; "#533483"; "#e94560";
   "#ff6b6b"; "#4ecdc4"; "#45b7d1"; "#96ceb4"; "#ffeaa7"].

Record State := mkState {
  mode : Mode;
  content : string;
  backgroundColor : string;
  imageFile : option File;
  creating : bool
}.

Definition initial : State := mkState text "" "#1a1a2e" None false.

Record Outcome := mkOutcome {
  toast : option Toast;
  created : bool   (* whether [onCreated] and [onClose] were called *)
}.

Definition add_text : Toast :=
  mkToast "Erreur" (Some "Ajoutez du texte à votre statut") true.
Definition select_image : Toast := mkToast "Erreur" (Some "Sélectionnez une image") true.
Definition create_failed : Toast :=
  mkToast "Erreur" (Some "Impossible de créer le statut") true.
Definition published : Toast := mkToast "Statut publié !" None false.

Definition handleImageSelect (files : list File) (st : State) : State :=
  match head files with
  | Some file => mkState image (content st) (backgroundColor st) (Some file) (creating st)
  | None => st
  end.

(** The "Texte" button only changes the mode. *)
Definition setMode (m : Mode) (st : State) : State :=
  mkState m (content st) (backgroundColor st) (imageFile st) (creating st).

(** The cross on the image preview. *)
Definition removeImage (st : State) : State :=
  mkState text (content st) (backgroundColor st) None (creating st).

(** [handleClose]: the form goes back to its initial values. *)
Definition handleClose (st : State) : State := initial.

Definition is_text (m : Mode) : bool :=
  match m with text => true | image => false end.

Section Create.
Variable trim : string → string.
Variable uploadStoryMedia : File → Err + UploadResult.

Definition handleCreate (g : Env) (user : option uuid) (db : Database) (st : State)
    : Database * State * Outcome :=
  match user with
  | None => (db, st, mkOutcome None false)
  | Some u =>
    if is_text (mode st) && String.eqb (trim (content st)) ""
    then (db, st, mkOutcome (Some add_text) false)
    else if negb (is_text (mode st)) && bool_decide (¬ is_Some (imageFile st))
    then (db, st, mkOutcome (Some select_image) false)
    else
      let failed :=
        mkState (mode st) (content st) (backgroundColor st) (imageFile st) false in
      let uploaded : Err + option string :=
        match imageFile st with
        | Some file =>
          match uploadStoryMedia file with
          | inl e => inl e
          | inr data => inr (Some (url data))
          end
        | None => inr None
        end in
      match uploaded with
      | inl _ => (db, failed, mkOutcome (Some create_failed) false)
      | inr imageUrl =>
        match insert_story g u
                (if is_text (mode st) then Some (content st) else None)
                imageUrl
                (if is_text (mode st) then Some (backgroundColor st) else None)
                db with
        | (db', Some _) => (db', failed, mkOutcome (Some create_failed) false)
        | (db', None) => (db', handleClose st, mkOutcome (Some published) true)
        end
      end
  end.
End Create.

End CreateStoryDialog.

(** Whether an effect of the chat view is the insert of a message. *)
Definition is_send (e : ChatView.Effect) : bool :=
  match e with
  | ChatView.SendMessage _ _ _ _ => true
  | _ => false
  end.

(** ** [SettingsView]: changing the avatar *)

(** [.update({ avatar_url }).eq("id", user.id)] on [profiles] *)
Definition update_avatar (g : Env) (uid : uuid) (avatar_url : string) (db : Database)
    : Database * option Err :=
  match fault g with
  | Some e => (db, Some e)
  | None =>
    (mkDatabase
       ((λ p, if String.eqb (profiles.id p) uid
              then profiles.mk (profiles.id p) (profiles.username p)
                     (profiles.display_name p) (Some avatar_url) (profiles.is_online p)
              else p) <$> t_profiles db)
       (t_conversations db) (t_conversation_members db) (t_messages db)
       (t_stories db) (t_story_views db) (t_contacts db), None)
  end.

Module SettingsView.
Import ChatView.

Inductive Effect :=
  | ShowToast (t : Toast)
  | UploadAvatar (f : File)
  | UpdateProfile (avatar_url : string).

Definition not_an_image : Toast :=
  mkToast "Erreur" (Some "Veuillez sélectionner une image") true.
Definition too_large : Toast :=
  mkToast "Fichier trop volumineux" (Some "La taille maximale est de 5 Mo") true.
Definition upload_failed : Toast :=
  mkToast "Erreur" (Some "Impossible de télécharger l'image") true.
Definition update_failed : Toast :=
  mkToast "Erreur" (Some "Impossible de mettre à jour l'avatar") true.
Definition avatar_updated : Toast := mkToast "Avatar mis à jour !" None false.

(** [updateProfile({ avatar_url })] of the profile hook: the local copy
    follows only when the gateway accepted the update. *)
Definition updateProfile_avatar (g : Env) (user : option uuid) (avatar_url : string)
    (db : Database) (profile : option profiles.Row)
    : Database * option profiles.Row * option Err :=
  match user with
  | None => (db, profile, Some (JsError "Not authenticated"))
  | Some u =>
    match update_avatar g u avatar_url db with
    | (db', Some e) => (db', profile, Some e)
    | (db', None) =>
      (db',
       (λ prev, profiles.mk (profiles.id prev) (profiles.username prev)
                  (profiles.display_name prev) (Some avatar_url)
                  (profiles.is_online prev)) <$> profile,
       None)
    end
  end.

Section Avatar.
Variable uploadAvatar : File → Err + UploadResult.

Definition handleAvatarChange (g : Env) (user : option uuid) (files : list File)
    (db : Database) (profile : option profiles.Row)
    : Database * option profiles.Row * list Effect :=
  match head files with
  | None => (db, profile, [])
  | Some file =>
    if negb (String.prefix "image/" (type file))
    then (db, profile, [ShowToast not_an_image])
    else if (5 * 1024 * 1024 <? size file)%Z
    then (db, profile, [ShowToast too_large])
    else
      match uploadAvatar file with
      | inl _ => (db, profile, [UploadAvatar file; ShowToast upload_failed])
      | inr data =>
        match updateProfile_avatar g user (url data) db profile with
        | (db', profile', Some _) =>
            (db', profile',
             [UploadAvatar file; UpdateProfile (url data); ShowToast update_failed])
        | (db', profile', None) =>
            (db', profile',
             [UploadAvatar file; UpdateProfile (url data); ShowToast avatar_updated])
        end
      end
  end.
End Avatar.

End SettingsView.

(** ** More runs on the small database *)

Module Scenarios.
Import Fixtures.

Definition carol_user : StoriesView.StoryUser := StoriesView.story_user (profile_of carol).
Definition carol_group : StoriesView.GroupedStories :=
  StoriesView.mkGrouped carol_user
    [StoriesView.mkStory (story "s-5" carol 1000 40) (Some carol_user)] false.

(** Alice looks at Bob's two stories, then at Carol's single one. *)
Definition bob_then_carol : list StoriesView.GroupedStories := [bob_group; carol_group].
Definition viewing_bob : StoriesNav.Viewing :=
  StoriesNav.mkViewing bob_sequence bob_user 0.
Definition viewing_carol : StoriesNav.Viewing :=
  StoriesNav.mkViewing (StoriesView.g_stories carol_group) carol_user 0.

End Scenarios.

(** ** [AddContactDialog]: the user search *)

Module UserSearch.
Import AddContactDialog.

Section Search.
(** [search.trim()], [search.length], and the match of
    [.or(`username.ilike.%${search}%,display_name.ilike.%${search}%`)]. *)
Variable trim : string → string.
Variable js_length : string → nat.
Variable ilike : string → profiles.Row → bool.

Definition searchUsers (search : string) (user : option uuid)
    (existingContactIds : list uuid) (db : Database) (st : State) : State :=
  if String.eqb (trim search) "" || (js_length search <? 2)
  then mkState [] (sendingTo st)
  else
    let data :=
      take 20 (filter (λ p, profiles.id p ≠ default "" user ∧ ilike search p = true)
                      (t_profiles db)) in
    mkState (filter (λ p, profiles.id p ∉ existingContactIds) data) (sendingTo st).
End Search.

End UserSearch.

(** ** Further scenarios *)

Module Cases.
Import Fixtures.

(** Alice's entry for her conversation with Carol, the two messages stored. *)
Definition alice_chat_entry : useConversations.Conversation :=
  useConversations.mkConversation
    (conversations.mk "c-1" false None None (Some alice) (Some 50%Z) (Some 100%Z))
    [useConversations.mkMember
       (conversation_members.mk "c-1" alice true (Some 50%Z)) (Some (profile_of alice));
     useConversations.mkMember
       (conversation_members.mk "c-1" carol false (Some 50%Z)) (Some (profile_of carol))]
    (Some (message "m-2" carol "hello" 120))
    (Some (profile_of carol)).

(** Alice has ticked Bob in the new-chat dialog. *)
Definition chat_with_bob : NewChatDialog.State :=
  NewChatDialog.mkState "" [profile_of bob] [bob] false "" false.

(** Alice sends "yo" to the conversation with Carol. *)
Definition env_insert : Env := mkEnv 130%Z "m-3" None.
Definition env_touch : Env := mkEnv 131%Z "-" None.
Definition db_sent : Database :=
  (SendMessage.sendMessage env_insert env_touch 999%Z (Some "c-1") (Some alice)
     "yo" "text" None None db_chat).1.

(** A storage service that accepts every upload, and one that refuses. *)
Definition storage_ok (bucket path : string) (f : ChatView.File) : option Err := None.
Definition storage_down (bucket path : string) (f : ChatView.File) : option Err :=
  Some (JsError "storage unavailable").
Definition public_url (bucket path : string) : string := bucket +:+ "/" +:+ path.

Definition file_picked : ChatView.State := ChatView.mkState "" false (Some small_file).
Definition busy : ChatView.State := ChatView.mkState "salut" true None.

Definition portrait : ChatView.File := ChatView.mkFile "me.png" 2048 "image/png".

(** Alice writes a text story at time 100. *)
Definition env_story : Env := mkEnv 100%Z "s-9" None.
Definition text_story : CreateStoryDialog.State :=
  CreateStoryDialog.mkState CreateStoryDialog.text "bonjour" "#533483" None false.
Definition media_ok (f : ChatView.File) : Err + ChatView.UploadResult :=
  useFileUpload.uploadStoryMedia storage_ok public_url 7 (Some alice) f.

Definition avatar_ok (f : ChatView.File) : Err + ChatView.UploadResult :=
  useFileUpload.uploadAvatar storage_ok public_url 7 (Some alice) f.
Definition env_avatar : Env := mkEnv 300%Z "-" None.

(** Alice has asked Bob, who has not answered yet. *)
Definition env_ask : Env := mkEnv 10%Z "k-1" None.
Definition env_answer : Env := mkEnv 12%Z "-" None.
Definition env_ask_again : Env := mkEnv 14%Z "k-3" None.
Definition db_asked : Database :=
  (AddContactDialog.handleSendRequest env_ask (Some alice) bob db0 dialog0).1.1.
Definition request_row : contacts.Row :=
  contacts.mk "k-1" alice bob "pending" (Some 10%Z).

End Cases.

(** * Properties *)

(** A closed decidable proposition, settled by evaluation. *)
Ltac by_compute := apply (bool_decide_unpack _); vm_compute; exact I.

(** ** The model at work *)

Section Runs.
Import Fixtures.

Example spread_new_Set_run :
  spread_new_Set [alice; bob; alice; carol; bob] = [alice; bob; carol].
Proof. reflexivity. Qed.

Example js_sort_stable_run :
  js_sort (λ a b : Z * string, (a.1 - b.1)%Z)
          [(2%Z, "a"); (1%Z, "b"); (2%Z, "c"); (1%Z, "d")]
  = [(1%Z, "b"); (1%Z, "d"); (2%Z, "a"); (2%Z, "c")].
Proof. reflexivity. Qed.

(** Alice's list after she opens a conversation with Bob: the new one first. *)
Example createConversation_run :
  conversations.id <$> (useConversations.row <$> useConversations.conversations
    (useConversations.createConversation env_conv env_members (Some alice) [bob]
       false None db0 st0).1.2) = ["c-2"; "c-1"].
Proof. reflexivity. Qed.

(** The listing for Alice at time 100: Carol's group, then Bob's. *)
Example fetchStories_run :
  (λ g, (StoriesView.id (StoriesView.g_user g),
         StoriesView.story_id <$> StoriesView.g_stories g,
         StoriesView.hasViewed g))
    <$> StoriesView.groupedStories
          (StoriesView.fetchStories (Some alice) 100 db_stories stories0)
  = [(carol, ["s-5"], false); (bob, ["s-2"; "s-1"], false)].
Proof. vm_compute. reflexivity. Qed.

(** Once Alice has seen both of Bob's stories his group counts as viewed
    and moves behind Carol's. *)
Example fetchStories_after_views_run :
  (λ g, (StoriesView.id (StoriesView.g_user g), StoriesView.hasViewed g))
    <$> StoriesView.groupedStories
          (StoriesView.fetchStories (Some alice) 100
             (StoryViewer.view (mkEnv 60 "" None) (Some alice) viewer_props on_first
                db_stories) stories0)
  = [(carol, false); (bob, true)].
Proof. vm_compute. reflexivity. Qed.

(** Fifty ticks of the timer take the viewer from the first story to the
    second. *)
Example tick_run :
  Nat.iter 50 (λ st, (StoryViewer.tick viewer_props st).1) on_first
  = StoryViewer.mkState 1 0 false.
Proof. vm_compute. reflexivity. Qed.
End Runs.

(** ** Sorting and set helpers *)

Section SortingFacts.
Context {A : Type} (before : A → A → bool).

Lemma insert_sorted_elem_of x y l :
  y ∈ insert_sorted before x l ↔ y = x ∨ y ∈ l.
Proof.
  induction l as [|z l IH]; simpl.
  - rewrite list_elem_of_singleton, elem_of_nil. tauto.
  - destruct (before x z); rewrite !elem_of_cons; [tauto|].
    rewrite IH. tauto.
Qed.

Lemma sort_by_elem_of y l : y ∈ sort_by before l ↔ y ∈ l.
Proof.
  induction l as [|z l IH]; simpl; [done|].
  rewrite insert_sorted_elem_of, elem_of_cons, IH. done.
Qed.

End SortingFacts.








(** ** Facts about the writes *)

Lemma add_members_inr g db ms : ∀ tbl tbl',
  add_members g db tbl ms = inr tbl' → tbl' = tbl ++ (to_member_row g <$> ms).
Proof.
  induction ms as [|m ms IH]; intros tbl tbl'; simpl.
  - intros [= <-]. by rewrite app_nil_r.
  - destruct (check_member db tbl m); [done|].
    intros H%IH. by rewrite H, <- app_assoc.
Qed.


Lemma insert_members_ok g ms db db' :
  insert_members g ms db = (db', None) →
  db' = with_conversation_members
          (t_conversation_members db ++ (to_member_row g <$> ms)) db.
Proof.
  unfold insert_members. destruct (fault g); [done|].
  destruct (add_members _ _ _ _) as [|tbl] eqn:Hadd; [done|].
  intros [= <-]. by rewrite (add_members_inr _ _ _ _ _ Hadd).
Qed.

Lemma insert_conversation_inr g is_group name u db db1 conv :
  insert_conversation g is_group name u db = (db1, inr conv) →
  conv = conversations.mk (gen_random_uuid g) is_group name None (Some u)
           (Some (now g)) (Some (now g)) ∧
  db1 = with_conversations (t_conversations db ++ [conv]) db.
Proof.
  unfold insert_conversation. destruct (fault g); [done|].
  case_bool_decide; [done|]. destruct (negb _); [done|].
  by intros [= <- <-].
Qed.

Lemma insert_conversation_inl g is_group name u db db1 e :
  insert_conversation g is_group name u db = (db1, inl e) → db1 = db.
Proof.
  unfold insert_conversation. destruct (fault g); [by intros [= <-]|].
  case_bool_decide; [by intros [= <-]|]. destruct (negb _); [by intros [= <-]|done].
Qed.

(** ** The conversation list *)

Section ConversationList.
Import useConversations.


End ConversationList.

Section CreateConversation.
Import useConversations.

End CreateConversation.

Section CreateConversationWitness.
Import useConversations Fixtures.

End CreateConversationWitness.

Section CreateConversationFailure.
Import useConversations.

End CreateConversationFailure.

Section CreateConversationFailureWitness.
Import useConversations Fixtures.

End CreateConversationFailureWitness.

(** ** Contacts *)

(** Under a unique key, the rows that share the key of a stored row and pass
    a test that row passes are that row alone. *)
Lemma unique_key_count {A K} `{EqDecision K} (f : A → K) (P : A → Prop)
    `{∀ x, Decision (P x)} (l : list A) (r : A) :
  NoDup (f <$> l) → r ∈ l → P r →
  length (filter (λ c, f c = f r ∧ P c) l) = 1.
Proof.
  induction l as [|a l IH]; intros Hnd Hin HP.
  - by apply elem_of_nil in Hin.
  - rewrite fmap_cons in Hnd. apply NoDup_cons in Hnd as [Hnotin Hnd].
    rewrite filter_cons. apply elem_of_cons in Hin as [->|Hin].
    + rewrite decide_True by done. simpl. f_equal.
      apply length_zero_iff_nil, elem_of_nil_inv.
      intros y [[Hy _] Hyl]%list_elem_of_filter. apply Hnotin.
      rewrite <- Hy. by apply list_elem_of_fmap_2.
    + rewrite decide_False; [by apply IH|].
      intros [Ha _]. apply Hnotin. rewrite Ha. by apply list_elem_of_fmap_2.
Qed.

Lemma filter_length_zero {A} (P : A → Prop) `{∀ x, Decision (P x)} (l : list A) :
  (∀ x, x ∈ l → ¬ P x) → length (filter P l) = 0.
Proof.
  intros Hno. apply length_zero_iff_nil, elem_of_nil_inv.
  intros x [HP Hx]%list_elem_of_filter. by apply (Hno x).
Qed.

Lemma embed_profile_id db uid p : embed_profile db uid = Some p → profiles.id p = uid.
Proof.
  unfold embed_profile. intros [_ Heq]%find_some. by apply String.eqb_eq.
Qed.

Lemma embed_profile_is_Some db uid :
  uid ∈ profiles.id <$> t_profiles db → is_Some (embed_profile db uid).
Proof.
  intros (p & -> & Hp)%list_elem_of_fmap.
  destruct (embed_profile db (profiles.id p)) eqn:Hfind; [done|].
  unfold embed_profile in Hfind.
  apply list_elem_of_In in Hp. apply (find_none _ _ Hfind p) in Hp.
  by rewrite String.eqb_refl in Hp.
Qed.

Section ContactList.
Import ContactsView.

(** Counting the entries that show [b] comes down to counting table rows. *)
Lemma listed_embedded db b (key : contacts.Row → uuid) (mk : contacts.Row → Contact)
    (P : contacts.Row → Prop) `{∀ x, Decision (P x)} (tbl : list contacts.Row) :
  (∀ c, contact_profile (mk c) = embed_profile db (key c)) →
  b ∈ profiles.id <$> t_profiles db →
  listed b (mk <$> filter P tbl) = length (filter (λ c, P c ∧ key c = b) tbl).
Proof.
  intros Hmk Hb. unfold listed.
  induction tbl as [|c tbl IH]; [done|].
  rewrite !filter_cons. destruct (decide (P c)) as [HP|HP].
  - rewrite fmap_cons, filter_cons, Hmk.
    destruct (decide (key c = b)) as [Hk|Hk].
    + rewrite (decide_True (P:=P c ∧ key c = b)) by tauto.
      destruct (embed_profile_is_Some db b Hb) as [p Hp].
      rewrite Hk, Hp. rewrite decide_True; [simpl; by f_equal|].
      simpl. f_equal. by apply (embed_profile_id db).
    + rewrite (decide_False (P:=P c ∧ key c = b)) by tauto.
      rewrite decide_False; [done|].
      destruct (embed_profile db (key c)) as [p|] eqn:Hp; [|done].
      simpl. intros [= Hid]. apply Hk. by rewrite <- (embed_profile_id _ _ _ Hp).
  - rewrite decide_False by tauto. done.
Qed.

(** The number of entries for [b] in the list of [a]: one per accepted row
    from [a] to [b] and one per accepted row from [b] to [a]. *)
Lemma listed_fetchContacts db a b st :
  b ∈ profiles.id <$> t_profiles db →
  listed b (contacts (fetchContacts (Some a) db st)) =
    length (filter (λ c, (contacts.user_id c = a ∧ contacts.status c = "accepted")
                         ∧ contacts.contact_id c = b) (t_contacts db)) +
    length (filter (λ c, (contacts.contact_id c = a ∧ contacts.status c = "accepted")
                         ∧ contacts.user_id c = b) (t_contacts db)).
Proof.
  intros Hb. cbn [fetchContacts contacts]. unfold listed.
  rewrite filter_app, length_app. f_equal.
  - by apply (listed_embedded db b contacts.contact_id).
  - rewrite <- list_fmap_compose.
    by apply (listed_embedded db b contacts.user_id).
Qed.

(** C3 (as amended). For an accepted contact row from [a] to [b], when the
    table holds no accepted row in the opposite direction, the contact list
    fetched for [a] shows the profile of [b] exactly once and the list
    fetched for [b] shows the profile of [a] exactly once. *)
Theorem fetchContacts_counterpart_once db a b r st :
  unique_contacts db →
  a ∈ profiles.id <$> t_profiles db →
  b ∈ profiles.id <$> t_profiles db →
  r ∈ t_contacts db →
  contact_key r = (a, b) →
  contacts.status r = "accepted" →
  (∀ r', r' ∈ t_contacts db → contact_key r' = (b, a) →
         contacts.status r' ≠ "accepted") →
  listed b (contacts (fetchContacts (Some a) db st)) = 1 ∧
  listed a (contacts (fetchContacts (Some b) db st)) = 1.
Proof.
  intros Huniq Ha Hb Hr Hkey Hacc Hnorev.
  assert (Hone : length (filter (λ c, contact_key c = contact_key r ∧
                           contacts.status c = "accepted") (t_contacts db)) = 1)
    by (by apply unique_key_count).
  rewrite Hkey in Hone.
  assert (Hzero : ∀ (Q : contacts.Row → Prop) `{∀ x, Decision (Q x)},
            (∀ c, Q c → contact_key c = (b, a) ∧ contacts.status c = "accepted") →
            length (filter Q (t_contacts db)) = 0).
  { intros Q ? HQ. apply filter_length_zero. intros c Hc [Hk Hs]%HQ.
    by apply (Hnorev c). }
  assert (Hfwd : ∀ (Q : contacts.Row → Prop) `{∀ x, Decision (Q x)},
            (∀ c, Q c ↔ contact_key c = (a, b) ∧ contacts.status c = "accepted") →
            length (filter Q (t_contacts db)) = 1).
  { intros Q ? HQ. rewrite <- Hone. f_equal. by apply list_filter_iff. }
  rewrite !listed_fetchContacts by done. split.
  - rewrite (Hfwd (λ c, (contacts.user_id c = a ∧ contacts.status c = "accepted")
                        ∧ contacts.contact_id c = b)).
    + rewrite (Hzero (λ c, (contacts.contact_id c = a ∧ contacts.status c = "accepted")
                           ∧ contacts.user_id c = b)); [done|].
      intros c [[H1 H2] H3]. unfold contact_key. by rewrite H1, H3.
    + intros c. unfold contact_key. split.
      * intros [[H1 H2] H3]. by rewrite H1, H3.
      * intros [Hk H2]. by injection Hk as H1 H3.
  - rewrite (Hfwd (λ c, (contacts.contact_id c = b ∧ contacts.status c = "accepted")
                        ∧ contacts.user_id c = a)).
    + rewrite (Hzero (λ c, (contacts.user_id c = b ∧ contacts.status c = "accepted")
                           ∧ contacts.contact_id c = a)); [done|].
      intros c [[H1 H2] H3]. unfold contact_key. by rewrite H1, H3.
    + intros c. unfold contact_key. split.
      * intros [[H1 H2] H3]. by rewrite H1, H3.
      * intros [Hk H2]. by injection Hk as H1 H3.
Qed.
End ContactList.

Section ContactListExamples.
Import ContactsView Fixtures.

Lemma fetchContacts_counterpart_once_witness :
  listed bob (contacts (fetchContacts (Some alice) db_accepted contacts0)) = 1 ∧
  listed alice (contacts (fetchContacts (Some bob) db_accepted contacts0)) = 1.
Proof.
  apply (fetchContacts_counterpart_once db_accepted alice bob
           (contacts.mk "k-1" alice bob "accepted" (Some 10%Z))).
  - by_compute.
  - by_compute.
  - by_compute.
  - by_compute.
  - reflexivity.
  - reflexivity.
  - intros r' Hr' Hk.
    repeat (apply elem_of_cons in Hr' as [->|Hr']; [discriminate Hk|]).
    by apply elem_of_nil in Hr'.
Defined.

(** C3 (as stated) fails: the unique constraint is on the ordered pair, so
    two users who each sent the other a request and each accepted the one
    received hold two accepted rows, and each sees the other twice. *)
Lemma fetchContacts_mutual_requests_listed_twice :
  unique_contacts db_mutual ∧
  contacts.mk "k-1" alice bob "accepted" (Some 10%Z) ∈ t_contacts db_mutual ∧
  listed bob (contacts (fetchContacts (Some alice) db_mutual contacts0)) = 2 ∧
  listed alice (contacts (fetchContacts (Some bob) db_mutual contacts0)) = 2.
Proof.
  split; [by_compute|]. split; [by_compute|]. split; reflexivity.
Qed.
End ContactListExamples.

Section SendRequest.
Import AddContactDialog.

(** C4. A contact request for an ordered pair that already has a row is
    refused by the gateway with the unique-violation code 23505; the
    handler shows the "already requested" toast and not the generic error,
    does not call [onAdded], and the table is unchanged, so it still holds
    exactly one row for that ordered pair. *)
Theorem handleSendRequest_duplicate g u profileId db st :
  fault g = None →
  unique_contacts db →
  (u, profileId) ∈ contact_key <$> t_contacts db →
  insert_contact g u profileId "pending" db
    = (db, Some (PostgrestError "23505")) ∧
  handleSendRequest g (Some u) profileId db st
    = (db, mkState (users st) None, mkOutcome (Some already_requested) false) ∧
  length (filter (λ c, contact_key c = (u, profileId))
            (t_contacts (handleSendRequest g (Some u) profileId db st).1.1)) = 1.
Proof.
  intros Hfault Huniq Hin.
  assert (Hins : insert_contact g u profileId "pending" db
                 = (db, Some (PostgrestError "23505"))).
  { unfold insert_contact. rewrite Hfault. case_bool_decide; [done|].
    by rewrite bool_decide_eq_true_2. }
  assert (Hh : handleSendRequest g (Some u) profileId db st
               = (db, mkState (users st) None, mkOutcome (Some already_requested) false)).
  { unfold handleSendRequest. by rewrite Hins. }
  split; [done|]. split; [done|]. rewrite Hh. simpl.
  apply list_elem_of_fmap in Hin as (r & Hk & Hr).
  rewrite Hk.
  rewrite <- (unique_key_count contact_key (λ _, True) (t_contacts db) r Huniq Hr I).
  f_equal. apply list_filter_iff. tauto.
Qed.
End SendRequest.

Section SendRequestWitness.
Import AddContactDialog Fixtures.

Lemma handleSendRequest_duplicate_witness :
  insert_contact (mkEnv 20%Z "k-9" None) alice bob "pending" db_requests
    = (db_requests, Some (PostgrestError "23505")) ∧
  handleSendRequest (mkEnv 20%Z "k-9" None) (Some alice) bob db_requests dialog0
    = (db_requests, mkState (users dialog0) None,
       mkOutcome (Some already_requested) false) ∧
  length (filter (λ c, contact_key c = (alice, bob))
            (t_contacts (handleSendRequest (mkEnv 20%Z "k-9" None) (Some alice) bob
                           db_requests dialog0).1.1)) = 1.
Proof.
  apply handleSendRequest_duplicate.
  - reflexivity.
  - by_compute.
  - by_compute.
Defined.
End SendRequestWitness.

(** ** Stories: grouping by author *)

Section Grouping.
Import StoriesView.

Lemma push_story_new x su (grouped : Grouped) :
  user_id x ∉ fst <$> grouped →
  push_story x su grouped = grouped ++ [(user_id x, mkGrouped su [x] false)].
Proof.
  induction grouped as [|[k g] rest IH]; intros Hnotin; [done|].
  simpl. rewrite fmap_cons, not_elem_of_cons in Hnotin.
  destruct Hnotin as [Hne Hnotin]. simpl in Hne.
  destruct (String.eqb_spec k (user_id x)) as [->|_]; [done|].
  by rewrite IH.
Qed.

Lemma push_story_existing x su (grouped : Grouped) :
  NoDup (fst <$> grouped) →
  user_id x ∈ fst <$> grouped →
  push_story x su grouped =
    (λ kg, if decide (kg.1 = user_id x)
           then (kg.1, mkGrouped (g_user kg.2) (g_stories kg.2 ++ [x]) (hasViewed kg.2))
           else kg) <$> grouped.
Proof.
  induction grouped as [|[k g] rest IH]; intros Hnd Hin.
  - by apply elem_of_nil in Hin.
  - rewrite fmap_cons in Hnd. apply NoDup_cons in Hnd as [Hk Hnd]. simpl in *.
    destruct (String.eqb_spec k (user_id x)) as [Heq|Hne].
    + rewrite decide_True by done. f_equal.
      rewrite <- (list_fmap_id rest) at 1. apply list_fmap_ext.
      intros i [k' g'] Hi. simpl. rewrite decide_False; [done|].
      intros Hk'. apply Hk. rewrite Heq, <- Hk'.
      apply (list_elem_of_fmap_2 fst rest (k', g')).
      by apply list_elem_of_lookup_2 in Hi.
    + rewrite decide_False by done. f_equal. apply IH; [done|].
      apply elem_of_cons in Hin as [Hin|Hin]; [congruence|done].
Qed.

Lemma group_step_inv f seen grouped x :
  user x = f (user_id x) →
  grouped_of f seen grouped →
  grouped_of f (seen ++ [x]) (group_step grouped x).
Proof.
  intros Hx (Hnd & Hent & Hcomplete). unfold group_step. rewrite Hx.
  destruct (f (user_id x)) as [su|] eqn:Hf.
  - destruct (decide (user_id x ∈ fst <$> grouped)) as [Hin|Hnotin].
    + rewrite push_story_existing by done. split; [|split].
      * rewrite <- list_fmap_compose.
        erewrite list_fmap_ext; [exact Hnd|].
        intros i [k g] _. simpl. by case_decide.
      * intros k g' ([k0 g0] & Heq & Hkg)%list_elem_of_fmap.
        destruct (Hent _ _ Hkg) as (Hu & Hs & Hne & Hv). simpl in Heq.
        rewrite filter_app. case_decide as Hk; injection Heq as -> ->.
        -- simpl. rewrite Hs. subst k0. split; [done|]. split.
           ++ by rewrite filter_cons_True.
           ++ split; [|done]. by intros [_ ?]%app_eq_nil.
        -- simpl in Hk. rewrite filter_cons_False by congruence.
           rewrite filter_nil, app_nil_r. done.
      * intros y [Hy|Hy%list_elem_of_singleton]%elem_of_app Hsome.
        -- rewrite <- list_fmap_compose.
           erewrite list_fmap_ext; [by apply Hcomplete|].
           intros i [k g] _. simpl. by case_decide.
        -- subst y. rewrite <- list_fmap_compose.
           erewrite list_fmap_ext; [exact Hin|].
           intros i [k g] _. simpl. by case_decide.
    + rewrite push_story_new by done. split; [|split].
      * rewrite fmap_app. apply NoDup_app. split; [done|]. split.
        -- intros k Hk ->%list_elem_of_singleton. done.
        -- apply NoDup_singleton.
      * intros k g [Hkg|Hkg%list_elem_of_singleton]%elem_of_app.
        -- destruct (Hent _ _ Hkg) as (Hu & Hs & Hne & Hv).
           rewrite filter_app, filter_cons_False, filter_nil, app_nil_r; [done|].
           intros Heq. apply Hnotin. rewrite Heq.
           by apply (list_elem_of_fmap_2 fst grouped (k, g)).
        -- injection Hkg as -> ->. simpl. split; [done|].
           rewrite filter_app, filter_cons_True by done.
           assert (filter (λ y, user_id y = user_id x) seen = []) as ->; [|done].
           apply elem_of_nil_inv. intros y [Hy Hys]%list_elem_of_filter.
           apply Hnotin. rewrite <- Hy. apply Hcomplete; [done|]. by rewrite Hy, Hf.
      * intros y [Hy|Hy%list_elem_of_singleton]%elem_of_app Hsome;
          rewrite fmap_app, elem_of_app.
        -- left. by apply Hcomplete.
        -- subst y. right. by left.
  - split; [done|]. split.
    + intros k g Hkg. destruct (Hent _ _ Hkg) as (Hu & Hs & Hne & Hv).
      rewrite filter_app, filter_cons_False, filter_nil, app_nil_r; [done|].
      intros Heq. by rewrite Heq, Hu in Hf.
    + intros y [Hy|Hy%list_elem_of_singleton]%elem_of_app Hsome.
      * by apply Hcomplete.
      * subst y. rewrite Hf in Hsome. by destruct Hsome.
Qed.

Lemma foldl_group_step_inv f l : ∀ seen grouped,
  (∀ y, y ∈ l → user y = f (user_id y)) →
  grouped_of f seen grouped →
  grouped_of f (seen ++ l) (foldl group_step grouped l).
Proof.
  induction l as [|x l IH]; intros seen grouped Hl Hinv; simpl.
  - by rewrite app_nil_r.
  - rewrite (cons_middle x seen l), app_assoc. apply IH.
    + intros y Hy. apply Hl. by right.
    + apply group_step_inv; [|done]. apply Hl. by left.
Qed.
End Grouping.

Lemma forallb_ext_elem_of {A} (f g : A → bool) (l : list A) :
  (∀ x, x ∈ l → f x = g x) → forallb f l = forallb g l.
Proof.
  induction l as [|a l IH]; intros Hfg; [done|]. simpl.
  rewrite (Hfg a) by (by left). f_equal. apply IH. intros x Hx. apply Hfg. by right.
Qed.

Lemma forallb_elem_of {A} (f : A → bool) (l : list A) :
  forallb f l = true ↔ ∀ x, x ∈ l → f x = true.
Proof.
  rewrite forallb_forall. split; intros Hf x Hx; apply Hf; by apply list_elem_of_In.
Qed.

Section StoriesListing.
Import StoriesView.

(** The fetched stories: the active rows, each with its author embedded. *)
Lemma fetched_story_elem_of db now (x : Story) :
  x ∈ (λ s, mkStory s (embed_user db (stories.user_id s))) <$>
        sort_by created_desc (filter (active now) (t_stories db)) ↔
  user x = embed_user db (user_id x) ∧
  story_row x ∈ t_stories db ∧ active now (story_row x).
Proof.
  rewrite list_elem_of_fmap. split.
  - intros (s & -> & Hs). apply sort_by_elem_of, list_elem_of_filter in Hs. tauto.
  - intros (Hu & Hs & Ha). exists (story_row x). split.
    + destruct x as [s us]. simpl in *. by rewrite Hu.
    + by apply sort_by_elem_of, list_elem_of_filter.
Qed.

Lemma embed_user_id db k su : embed_user db k = Some su → id su = k.
Proof.
  unfold embed_user. destruct (embed_profile db k) as [p|] eqn:Hp; [|done].
  intros [= <-]. simpl. by apply (embed_profile_id db).
Qed.

(** Every listed group is the sequence of one author other than the
    current user: all of that author's active stories, and its [hasViewed]
    is the test run over them. *)
Lemma fetchStories_group u now db st g :
  g ∈ groupedStories (fetchStories (Some u) now db st) →
  (∀ x, x ∈ g_stories g ↔
        user_id x = id (g_user g) ∧ user x = Some (g_user g) ∧
        story_row x ∈ t_stories db ∧ active now (story_row x)) ∧
  id (g_user g) ≠ u ∧
  hasViewed g =
    forallb (λ s, bool_decide ((story_id s, u) ∈ view_key <$> t_story_views db))
            (g_stories g).
Proof.
  cbn [fetchStories groupedStories].
  set (all := (λ s, mkStory s (embed_user db (stories.user_id s))) <$>
                sort_by created_desc (filter (active now) (t_stories db))).
  set (others := filter (λ s, user_id s ≠ u) all).
  intros Hg. unfold js_sort in Hg. apply sort_by_elem_of in Hg.
  assert (Hinv : grouped_of (embed_user db) others (foldl group_step [] others)).
  { apply (foldl_group_step_inv (embed_user db) others [] []).
    - intros y [_ Hy]%list_elem_of_filter.
      by apply fetched_story_elem_of in Hy as [? _].
    - split; [apply NoDup_nil_2|]. split; [by intros k g0 ?%elem_of_nil|].
      by intros y ?%elem_of_nil. }
  destruct Hinv as (_ & Hent & _).
  assert (Hshape : ∃ k g0, (k, g0) ∈ foldl group_step [] others ∧
            g_user g = g_user g0 ∧ g_stories g = g_stories g0 ∧
            hasViewed g =
              forallb (λ s, bool_decide (story_id s ∈
                 (list_to_set (story_views.story_id <$>
                    filter (λ v, story_views.viewer_id v = u ∧
                                 story_views.story_id v ∈ story_id <$> others)
                           (t_story_views db)) : gset uuid)))
                (g_stories g0)).
  { case_bool_decide as Hlen.
    - apply list_elem_of_fmap in Hg as ([k g1] & -> & Hg).
      apply list_elem_of_fmap in Hg as ([k0 g0] & [= -> ->] & Hg).
      by exists k0, g0.
    - apply list_elem_of_fmap in Hg as ([k g0] & -> & Hg).
      destruct (Hent _ _ Hg) as (_ & Hs & Hne & _).
      exfalso. apply Hlen. rewrite length_fmap.
      destruct others; [|simpl; lia]. by rewrite filter_nil in Hs. }
  destruct Hshape as (k & g0 & Hkg & Hu & Hs & Hv).
  destruct (Hent _ _ Hkg) as (Hfk & Hst & Hne & _).
  rewrite Hu, Hs. pose proof (embed_user_id _ _ _ Hfk) as Hid.
  assert (Hmem : ∀ x, x ∈ g_stories g0 ↔
            user_id x = id (g_user g0) ∧ user x = Some (g_user g0) ∧
            story_row x ∈ t_stories db ∧ active now (story_row x)).
  { intros x. rewrite Hst, list_elem_of_filter. unfold others, all.
    rewrite list_elem_of_filter, fetched_story_elem_of, Hid. split.
    - intros (-> & _ & Hux & ? & ?). by rewrite Hux, Hfk.
    - intros (-> & Hux & ? & ?). split; [done|]. split; [|by rewrite Hux, Hfk].
      destruct (g_stories g0) as [|y ys] eqn:Hys; [done|].
      assert (Hy : y ∈ filter (λ y, user_id y = k) others)
        by (rewrite <- Hst; by left).
      apply list_elem_of_filter in Hy as [<- Hy].
      by apply list_elem_of_filter in Hy as [Hy _]. }
  split; [done|]. split.
  - destruct (g_stories g0) as [|y ys] eqn:Hys; [done|].
    assert (Hy : y ∈ filter (λ y, user_id y = k) others)
      by (rewrite <- Hst; by left).
    apply list_elem_of_filter in Hy as [<- Hy].
    apply list_elem_of_filter in Hy as [Hy _]. by rewrite Hid.
  - rewrite Hv. apply forallb_ext_elem_of. intros x Hx.
    apply bool_decide_ext. rewrite elem_of_list_to_set, !list_elem_of_fmap.
    split.
    + intros (v & Hvs & Hv'). apply list_elem_of_filter in Hv' as [[Hvu _] Hvin].
      exists v. split; [|done]. unfold view_key. by rewrite Hvs, Hvu.
    + intros (v & [= Hvs Hvu] & Hvin). exists v. split; [done|].
      apply list_elem_of_filter. split; [|done]. split; [done|].
      rewrite <- Hvs. apply list_elem_of_fmap_2.
      rewrite Hst in Hx. by apply list_elem_of_filter in Hx as [_ Hx].
Qed.
End StoriesListing.

Section StoriesTheorems.
Import StoriesView.

(** The user of a group is the author of each of its stories: this is what
    [StoriesView] hands to the viewer as [storyUser]. *)
Lemma group_user_is_author u now db st g x :
  g ∈ groupedStories (fetchStories (Some u) now db st) →
  x ∈ g_stories g →
  id (g_user g) = user_id x ∧ user_id x ≠ u.
Proof.
  intros Hg Hx. destruct (fetchStories_group _ _ _ _ _ Hg) as (Hmem & Hne & _).
  apply Hmem in Hx as (Hu & _). by rewrite Hu.
Qed.

Lemma active_spec now s :
  active now s ↔ ∃ t, stories.expires_at s = Some t ∧ (now < t)%Z.
Proof.
  unfold active, ts_gt. destruct (stories.expires_at s) as [t|].
  - rewrite Z.ltb_lt. split; [by exists t|]. by intros (? & [= <-] & ?).
  - split; [done|]. by intros (? & ? & ?).
Qed.

(** Every story shown, under "my stories" or in a group of "recent
    updates", is a stored row that expires strictly after the fetch time. *)
Lemma fetchStories_listed_active u now db st x :
  x ∈ myStories (fetchStories (Some u) now db st) ∨
  (∃ g, g ∈ groupedStories (fetchStories (Some u) now db st) ∧ x ∈ g_stories g) →
  story_row x ∈ t_stories db ∧ active now (story_row x).
Proof.
  intros [Hx|(g & Hg & Hx)].
  - cbn [fetchStories myStories] in Hx.
    apply list_elem_of_filter in Hx as [_ Hx].
    apply fetched_story_elem_of in Hx. tauto.
  - destruct (fetchStories_group _ _ _ _ _ Hg) as (Hmem & _).
    apply Hmem in Hx. tauto.
Qed.

(** C6. A story whose expiry timestamp is not after the fetch time, in the
    past or equal to it, appears neither in "my stories" nor in any group
    of "recent updates", although its row is still stored: every story of
    the listing has an expiry timestamp strictly greater than the fetch
    time. *)
Theorem fetchStories_excludes_expired u now db st s t :
  s ∈ t_stories db →
  stories.expires_at s = Some t →
  (t ≤ now)%Z →
  (s ∉ story_row <$> myStories (fetchStories (Some u) now db st)) ∧
  (∀ g, g ∈ groupedStories (fetchStories (Some u) now db st) →
        s ∉ story_row <$> g_stories g) ∧
  (∀ x, x ∈ myStories (fetchStories (Some u) now db st) ∨
        (∃ g, g ∈ groupedStories (fetchStories (Some u) now db st) ∧ x ∈ g_stories g) →
        ∃ t', stories.expires_at (story_row x) = Some t' ∧ (now < t')%Z).
Proof.
  intros _ Hexp Hle.
  assert (Hnot : ¬ active now s).
  { intros (t' & Ht' & Hlt)%active_spec. rewrite Hexp in Ht'.
    injection Ht' as <-. lia. }
  split; [|split].
  - intros (x & -> & Hx)%list_elem_of_fmap. apply Hnot.
    apply (fetchStories_listed_active u now db st x). by left.
  - intros g Hg (x & -> & Hx)%list_elem_of_fmap. apply Hnot.
    apply (fetchStories_listed_active u now db st x). right. by exists g.
  - intros x Hx. apply active_spec.
    by apply (fetchStories_listed_active u now db st x).
Qed.

(** C7. For every author group of the listing, [hasViewed] is true exactly
    when every stored story of that author that is active at fetch time
    has a view row of the current user; and the group holds exactly those
    stories. *)
Theorem hasViewed_iff_all_viewed u now db st g :
  g ∈ groupedStories (fetchStories (Some u) now db st) →
  (∀ s, s ∈ story_row <$> g_stories g ↔
        s ∈ t_stories db ∧ stories.user_id s = id (g_user g) ∧ active now s) ∧
  (hasViewed g = true ↔
   ∀ s, s ∈ t_stories db → stories.user_id s = id (g_user g) → active now s →
        ∃ v, v ∈ t_story_views db ∧
             story_views.story_id v = stories.id s ∧
             story_views.viewer_id v = u).
Proof.
  intros Hg. destruct (fetchStories_group _ _ _ _ _ Hg) as (Hmem & Hne & Hv).
  assert (Hrows : ∀ s, s ∈ story_row <$> g_stories g ↔
            s ∈ t_stories db ∧ stories.user_id s = id (g_user g) ∧ active now s).
  { intros s. rewrite list_elem_of_fmap. split.
    - intros (x & -> & Hx). apply Hmem in Hx. unfold user_id in Hx. tauto.
    - intros (Hs & Hu & Ha). exists (mkStory s (Some (g_user g))).
      split; [done|]. apply Hmem. done. }
  split; [done|]. rewrite Hv, forallb_elem_of. split.
  - intros Hall s Hs Hu Ha.
    assert (Hin : s ∈ story_row <$> g_stories g) by (by apply Hrows).
    apply list_elem_of_fmap in Hin as (x & -> & Hx).
    apply Hall in Hx. apply bool_decide_eq_true in Hx.
    apply list_elem_of_fmap in Hx as (v & [= Hvs Hvu] & Hvin).
    by exists v.
  - intros Hall x Hx. apply bool_decide_eq_true.
    assert (Hin : story_row x ∈ story_row <$> g_stories g)
      by (by apply list_elem_of_fmap_2).
    apply Hrows in Hin as (Hs & Hu & Ha).
    destruct (Hall _ Hs Hu Ha) as (v & Hvin & Hvs & Hvu).
    apply list_elem_of_fmap. exists v. split; [|done].
    unfold view_key, story_id. by rewrite Hvs, Hvu.
Qed.
End StoriesTheorems.

Section StoriesWitness.
Import StoriesView Fixtures.

(** Carol's story "s-3" expired at 90 and is gone at time 100. *)
Lemma fetchStories_excludes_expired_witness :
  (story "s-3" carol 90 5 ∉
    story_row <$> myStories (fetchStories (Some alice) 100%Z db_stories stories0)) ∧
  (∀ g, g ∈ groupedStories (fetchStories (Some alice) 100%Z db_stories stories0) →
        story "s-3" carol 90 5 ∉ story_row <$> g_stories g) ∧
  (∀ x, x ∈ myStories (fetchStories (Some alice) 100%Z db_stories stories0) ∨
        (∃ g, g ∈ groupedStories (fetchStories (Some alice) 100%Z db_stories stories0)
              ∧ x ∈ g_stories g) →
        ∃ t', stories.expires_at (story_row x) = Some t' ∧ (100 < t')%Z).
Proof.
  apply (fetchStories_excludes_expired alice 100%Z db_stories stories0
           (story "s-3" carol 90 5) 90%Z).
  - by_compute.
  - reflexivity.
  - lia.
Defined.

(** Bob's group at time 100: Alice has seen "s-1" but not "s-2". *)
Lemma hasViewed_iff_all_viewed_witness :
  (∀ s, s ∈ story_row <$> g_stories bob_group ↔
        s ∈ t_stories db_stories ∧ stories.user_id s = id (g_user bob_group) ∧
        active 100%Z s) ∧
  (hasViewed bob_group = true ↔
   ∀ s, s ∈ t_stories db_stories → stories.user_id s = id (g_user bob_group) →
        active 100%Z s →
        ∃ v, v ∈ t_story_views db_stories ∧
             story_views.story_id v = stories.id s ∧
             story_views.viewer_id v = alice).
Proof.
  apply (hasViewed_iff_all_viewed alice 100%Z db_stories stories0 bob_group).
  by_compute.
Defined.
End StoriesWitness.

(** ** The story viewer *)

Section ViewedMark.
Import StoriesView StoryViewer.






End ViewedMark.

Section ViewedMarkWitness.
Import StoriesView StoryViewer Fixtures.

End ViewedMarkWitness.

Section ViewerProgress.
Import StoriesView StoryViewer.

(** C8. When a tick of the running timer brings the progress to 100 or
    more: if a story remains after the current one the index advances by
    one and the progress is back at 0; otherwise the "next user" callback
    is called when it is provided, and the viewer is closed when it is
    not. The same holds for [goToNext] called directly. This is for every
    sequence and every index. *)
Theorem tick_full_progress p st :
  isPaused st = false →
  (100 ≤ progress st + 2)%Z →
  ((currentIndex st < Z.of_nat (length (stories p)) - 1)%Z →
     tick p st = (mkState (currentIndex st + 1) 0 false, []) ∧
     goToNext p st = (mkState (currentIndex st + 1) 0 false, [])) ∧
  (¬ (currentIndex st < Z.of_nat (length (stories p)) - 1)%Z →
     (onNextUser p = true →
        tick p st = (mkState (currentIndex st) 0 false, [NextUser]) ∧
        goToNext p st = (st, [NextUser])) ∧
     (onNextUser p = false →
        tick p st = (mkState (currentIndex st) 0 false, [Close]) ∧
        goToNext p st = (st, [Close]))).
Proof.
  intros Hrun Hfull. unfold tick, goToNext. rewrite Hrun.
  change (100 / (STORY_DURATION / 100))%Z with 2%Z.
  rewrite (proj2 (Z.leb_le _ _) Hfull). split.
  - intros Hlt. by rewrite (proj2 (Z.ltb_lt _ _) Hlt).
  - intros Hge. rewrite (proj2 (Z.ltb_ge _ _)) by lia.
    split; intros ->; by rewrite Hrun.
Qed.
End ViewerProgress.

Section ViewerProgressWitness.
Import StoriesView StoryViewer Fixtures.

(** Bob's two stories, the second one shown, progress 98. *)
Lemma tick_full_progress_witness :
  tick viewer_props at_end = (mkState 1 0 false, [NextUser]) ∧
  goToNext viewer_props at_end = (at_end, [NextUser]).
Proof.
  destruct (tick_full_progress viewer_props at_end) as [_ Hlast].
  - reflexivity.
  - simpl. lia.
  - apply Hlast; [simpl; lia|reflexivity].
Defined.
End ViewerProgressWitness.

(** ** The message list *)

Section SortedFacts.
Context {A : Type} (before : A → A → bool).
Hypothesis before_total : ∀ x y, before x y = false → before y x = true.

Let R (a b : A) : Prop := before a b = true.

Lemma insert_sorted_HdRel a x l :
  R a x → HdRel R a l → HdRel R a (insert_sorted before x l).
Proof.
  intros Hax Hl. destruct l as [|y l]; simpl; [by constructor|].
  destruct (before x y); constructor; [done|].
  by apply HdRel_inv in Hl.
Qed.

Lemma insert_sorted_Sorted x l :
  Sorted R l → Sorted R (insert_sorted before x l).
Proof.
  induction 1 as [|y l Hs IH Hhd]; simpl.
  - by repeat constructor.
  - destruct (before x y) eqn:Hxy.
    + constructor; [by constructor|]. by constructor.
    + constructor; [done|]. apply insert_sorted_HdRel; [|done].
      by apply before_total.
Qed.

Lemma sort_by_Sorted l : Sorted R (sort_by before l).
Proof.
  induction l as [|x l IH]; simpl; [constructor|].
  by apply insert_sorted_Sorted.
Qed.
End SortedFacts.

Lemma ts_leb_total a b : ts_leb a b = false → ts_leb b a = true.
Proof.
  destruct a as [x|], b as [y|]; simpl; try done.
  intros H%Z.leb_gt. apply Z.leb_le. lia.
Qed.

Lemma ts_leb_trans a b c : ts_leb a b = true → ts_leb b c = true → ts_leb a c = true.
Proof.
  destruct a as [x|], b as [y|], c as [z|]; simpl; try done.
  intros H1%Z.leb_le H2%Z.leb_le. apply Z.leb_le. lia.
Qed.

Section MessageList.
Import useMessages ChatView.


End MessageList.

Section MessageListExamples.
Import useMessages ChatView Fixtures.

End MessageListExamples.

Section MessageListWitness.
Import useMessages ChatView Fixtures.

End MessageListWitness.

(** ** Attachments *)

Section FileSelect.
Import ChatView.

(** C10. A selected file of more than 10 * 1024 * 1024 bytes is refused by
    the handler itself: the only effect is the "file too large" toast, no
    upload and no message insert is asked for, the view state is unchanged
    (an unset pending attachment stays unset) and a later send behaves as
    if the file had never been picked. A file of at most that size becomes
    the pending attachment, with no effect. *)
Theorem handleFileSelect_size_limit (file : File) (rest : list File) (st : State) :
  ((10 * 1024 * 1024 < size file)%Z →
     handleFileSelect (file :: rest) st = (st, [ShowToast file_too_large]) ∧
     (∀ e, e ∈ (handleFileSelect (file :: rest) st).2 →
           (∀ f, e ≠ UploadChatAttachment f) ∧
           (∀ c t u n, e ≠ SendMessage c t u n)) ∧
     (selectedFile st = None →
        selectedFile (handleFileSelect (file :: rest) st).1 = None) ∧
     (∀ trim upload,
        handleSend trim upload (handleFileSelect (file :: rest) st).1
          = handleSend trim upload st)) ∧
  ((size file ≤ 10 * 1024 * 1024)%Z →
     handleFileSelect (file :: rest) st
       = (mkState (newMessage st) (sending st) (Some file), [])).
Proof.
  unfold handleFileSelect. cbn [head]. split.
  - intros Hbig%Z.ltb_lt. rewrite Hbig. split; [done|].
    split; [|done]. intros e ->%list_elem_of_singleton. done.
  - intros Hsmall%Z.ltb_ge. by rewrite Hsmall.
Qed.
End FileSelect.

Section FileSelectWitness.
Import ChatView Fixtures.

Lemma handleFileSelect_size_limit_witness :
  handleFileSelect [big_file] view0 = (view0, [ShowToast file_too_large]) ∧
  handleFileSelect [small_file] view0 = (mkState "" false (Some small_file), []).
Proof.
  split.
  - apply (proj1 (handleFileSelect_size_limit big_file [] view0)).
    vm_compute. reflexivity.
  - apply (proj2 (handleFileSelect_size_limit small_file [] view0)).
    vm_compute. discriminate.
Defined.
End FileSelectWitness.

(** * Further properties of the code *)

(** ** More on sorting *)

Section SortingMore.
Context {A : Type} (before : A → A → bool).

Lemma insert_sorted_perm x l : insert_sorted before x l ≡ₚ x :: l.
Proof.
  induction l as [|y l IH]; simpl; [done|].
  destruct (before x y); [done|]. rewrite IH. apply Permutation_swap.
Qed.

Lemma sort_by_perm l : sort_by before l ≡ₚ l.
Proof.
  induction l as [|x l IH]; simpl; [done|].
  by rewrite insert_sorted_perm, IH.
Qed.

Lemma sort_by_StronglySorted l :
  (∀ x y, before x y = false → before y x = true) →
  (∀ x y z, before x y = true → before y z = true → before x z = true) →
  StronglySorted (λ a b, before a b = true) (sort_by before l).
Proof.
  intros Htotal Htrans. apply Sorted_StronglySorted.
  - intros x y z. apply Htrans.
  - by apply sort_by_Sorted.
Qed.


End SortingMore.

Lemma StronglySorted_filter {A} (R : A → A → Prop) (P : A → Prop)
    `{∀ x, Decision (P x)} (l : list A) :
  StronglySorted R l → StronglySorted R (filter P l).
Proof.
  induction 1 as [|x l Hs IH Hall]; [constructor|].
  rewrite filter_cons. case_decide; [|done].
  constructor; [done|]. apply Forall_forall. intros y [_ Hy]%list_elem_of_filter.
  by apply (proj1 (Forall_forall _ _) Hall).
Qed.



(** ** The stories listing: shape of the groups *)

Section StoriesShape.
Import StoriesView.

(** X1. "Unviewed first" is a stable partition: the groups not yet fully
    viewed, in their order, followed by the viewed ones, in their order. *)
Theorem js_sort_unviewed_first (l : list GroupedStories) :
  js_sort unviewed_first l =
    filter (λ g, hasViewed g = false) l ++ filter (λ g, hasViewed g = true) l.
Proof.
  unfold js_sort. induction l as [|x l IH]; [done|].
  cbn [sort_by foldr]. fold (sort_by (λ a b, (unviewed_first a b <=? 0)%Z) l).
  rewrite IH, !filter_cons. clear IH.
  set (U := filter (λ g, hasViewed g = false) l).
  set (V := filter (λ g, hasViewed g = true) l).
  assert (HU : ∀ y, y ∈ U → hasViewed y = false)
    by (intros y [? _]%list_elem_of_filter; done).
  assert (HV : ∀ y, y ∈ V → hasViewed y = true)
    by (intros y [? _]%list_elem_of_filter; done).
  clearbody U V. destruct (hasViewed x) eqn:Hx.
  - rewrite decide_False by done. rewrite decide_True by done.
    induction U as [|y U IHU]; simpl.
    + destruct V as [|z V]; [done|]. simpl.
      unfold unviewed_first. rewrite Hx, (HV z) by (by left). done.
    + unfold unviewed_first at 1. rewrite Hx, (HU y) by (by left). simpl.
      f_equal. apply IHU. intros z Hz. apply HU. by right.
  - rewrite decide_True by done. rewrite decide_False by done.
    change ((x :: U) ++ V) with (x :: (U ++ V)).
    generalize (U ++ V). intros [|y W]; simpl; [done|].
    unfold unviewed_first. rewrite Hx. by destruct (hasViewed y).
Qed.

(** Where a listed group comes from: an entry of the grouping loop. *)
Lemma fetchStories_group_origin u now db st g :
  g ∈ groupedStories (fetchStories (Some u) now db st) →
  ∃ k g0,
    (k, g0) ∈ foldl group_step []
      (filter (λ s, user_id s ≠ u)
         ((λ s, mkStory s (embed_user db (stories.user_id s))) <$>
            sort_by created_desc (filter (active now) (t_stories db)))) ∧
    g_user g = g_user g0 ∧ g_stories g = g_stories g0.
Proof.
  cbn [fetchStories groupedStories]. intros Hg.
  unfold js_sort in Hg. apply sort_by_elem_of in Hg.
  case_bool_decide.
  - apply list_elem_of_fmap in Hg as ([k g1] & -> & Hg).
    apply list_elem_of_fmap in Hg as ([k0 g0] & [= -> ->] & Hg).
    by exists k0, g0.
  - apply list_elem_of_fmap in Hg as ([k g0] & -> & Hg). by exists k, g0.
Qed.

Lemma fetched_grouped_of u now db :
  grouped_of (embed_user db)
    (filter (λ s, user_id s ≠ u)
       ((λ s, mkStory s (embed_user db (stories.user_id s))) <$>
          sort_by created_desc (filter (active now) (t_stories db))))
    (foldl group_step []
       (filter (λ s, user_id s ≠ u)
          ((λ s, mkStory s (embed_user db (stories.user_id s))) <$>
             sort_by created_desc (filter (active now) (t_stories db))))).
Proof.
  apply (foldl_group_step_inv (embed_user db) _ [] []).
  - intros y [_ Hy]%list_elem_of_filter.
    by apply fetched_story_elem_of in Hy as [? _].
  - split; [apply NoDup_nil_2|]. split; [by intros k g0 ?%elem_of_nil|].
    by intros y ?%elem_of_nil.
Qed.

Lemma fetched_groups_distinct u now db st :
  NoDup (id ∘ g_user <$> groupedStories (fetchStories (Some u) now db st)).
Proof.
  destruct (fetched_grouped_of u now db) as (Hnd & Hent & _).
  cbn [fetchStories groupedStories]. unfold js_sort.
  rewrite sort_by_perm.
  match goal with
  | H : NoDup (?G.*1) |- _ => set (G0 := G) in *
  end.
  case_bool_decide; rewrite <- ?list_fmap_compose;
    (rewrite (list_fmap_ext _ fst G0); [done|]);
    intros i [k g0] Hi%list_elem_of_lookup_2; simpl;
    destruct (Hent _ _ Hi) as (Hf & _); by apply (embed_user_id db).
Qed.

(** X2. The listing has one group per author: the groups have pairwise
    distinct users, none of them the current user, and no group is empty
    (so [group.stories[0]] is always there). *)
Theorem fetchStories_one_group_per_author u now db st :
  NoDup (id ∘ g_user <$> groupedStories (fetchStories (Some u) now db st)) ∧
  (∀ g, g ∈ groupedStories (fetchStories (Some u) now db st) →
        id (g_user g) ≠ u ∧ g_stories g ≠ []).
Proof.
  split; [apply fetched_groups_distinct|].
  - intros g Hg. destruct (fetchStories_group _ _ _ _ _ Hg) as (Hmem & Hne & _).
    split; [done|].
    destruct (fetchStories_group_origin _ _ _ _ _ Hg) as (k & g0 & Hkg & _ & Hs).
    destruct (fetched_grouped_of u now db) as (_ & Hent & _).
    destruct (Hent _ _ Hkg) as (_ & _ & Hnonempty & _). by rewrite Hs.
Qed.
End StoriesShape.

Section StoriesOrder.
Import StoriesView.

Lemma fetched_stories_sorted db now :
  StronglySorted (λ a b, created_desc (story_row a) (story_row b) = true)
    ((λ s, mkStory s (embed_user db (stories.user_id s))) <$>
       sort_by created_desc (filter (active now) (t_stories db))).
Proof.
  apply (StronglySorted_fmap _ (λ a b, created_desc a b = true)); [done|].
  apply sort_by_StronglySorted.
  - intros x y. unfold created_desc. apply ts_leb_total.
  - intros x y z H1 H2. unfold created_desc in *. by apply (ts_leb_trans _ _ _ H2 H1).
Qed.

(** X3. Newest first: "my stories" and the stories of every group are in
    descending order of creation time, so the first story of a group, whose
    time the listing shows, is the author's latest. *)
Theorem fetchStories_newest_first u now db st :
  StronglySorted (λ a b, created_desc (story_row a) (story_row b) = true)
    (myStories (fetchStories (Some u) now db st)) ∧
  (∀ g, g ∈ groupedStories (fetchStories (Some u) now db st) →
        StronglySorted (λ a b, created_desc (story_row a) (story_row b) = true)
          (g_stories g)).
Proof.
  split.
  - cbn [fetchStories myStories]. apply StronglySorted_filter, fetched_stories_sorted.
  - intros g Hg.
    destruct (fetchStories_group_origin _ _ _ _ _ Hg) as (k & g0 & Hkg & _ & Hs).
    destruct (fetched_grouped_of u now db) as (_ & Hent & _).
    destruct (Hent _ _ Hkg) as (_ & Heq & _). rewrite Hs, Heq.
    apply StronglySorted_filter, StronglySorted_filter, fetched_stories_sorted.
Qed.
End StoriesOrder.

(** ** Moving between authors *)

Section StoriesNavigation.
Import StoriesView StoriesNav.


End StoriesNavigation.

(** ** The viewer within one sequence *)

Section ViewerInvariants.
Import StoriesView StoryViewer.

(** X5. With the props fixed, an index inside the sequence and a progress
    in [0, 100) stay so under a timer tick, "next" and "previous": the
    viewer always has a current story to show. *)
Theorem viewer_stays_in_range p st :
  (0 ≤ currentIndex st < Z.of_nat (length (stories p)))%Z →
  (0 ≤ progress st < 100)%Z →
  Forall (λ st', (0 ≤ currentIndex st' < Z.of_nat (length (stories p)))%Z ∧
                 (0 ≤ progress st' < 100)%Z ∧
                 is_Some (currentStory p st'))
    [(tick p st).1; (goToNext p st).1; (goToPrev p st).1].
Proof.
  intros Hidx Hprog.
  assert (Hshow : ∀ st', (0 ≤ currentIndex st' < Z.of_nat (length (stories p)))%Z →
            is_Some (currentStory p st')).
  { intros st' H'. unfold currentStory.
    rewrite (proj2 (Z.ltb_ge _ _)) by lia. apply lookup_lt_is_Some. lia. }
  assert (Hnext : (0 ≤ currentIndex (goToNext p st).1 < Z.of_nat (length (stories p)))%Z ∧
                  (0 ≤ progress (goToNext p st).1 < 100)%Z).
  { unfold goToNext. destruct (Z.ltb_spec (currentIndex st)
      (Z.of_nat (length (stories p)) - 1)); simpl; [lia|].
    destruct (onNextUser p); simpl; lia. }
  repeat apply Forall_cons_2; [| | |constructor].
  - assert (H' : (0 ≤ currentIndex (tick p st).1 < Z.of_nat (length (stories p)))%Z ∧
                 (0 ≤ progress (tick p st).1 < 100)%Z).
    { unfold tick. destruct (isPaused st); [simpl; lia|].
      change (100 / (STORY_DURATION / 100))%Z with 2%Z.
      destruct (Z.leb_spec 100 (progress st + 2)); [|simpl; lia].
      destruct (goToNext p st) as [st' calls]. simpl in *. lia. }
    destruct H'. auto.
  - destruct Hnext. auto.
  - assert (H' : (0 ≤ currentIndex (goToPrev p st).1 < Z.of_nat (length (stories p)))%Z ∧
                 (0 ≤ progress (goToPrev p st).1 < 100)%Z).
    { unfold goToPrev. destruct (Z.ltb_spec 0 (currentIndex st)); simpl; [lia|].
      destruct (onPrevUser p); simpl; lia. }
    destruct H'. auto.
Qed.

Lemma ticks_raise_progress p i (k : nat) :
  k < 50 →
  Nat.iter k (λ s, (tick p s).1) (mkState i 0 false) = mkState i (2 * Z.of_nat k) false.
Proof.
  induction k as [|k IH]; intros Hk; [done|].
  rewrite Nat.iter_succ, IH by lia. unfold tick. simpl.
  change (100 / (STORY_DURATION / 100))%Z with 2%Z.
  rewrite (proj2 (Z.leb_gt _ _)) by lia. simpl. f_equal. lia.
Qed.

(** X6. A story stays for fifty ticks of the running timer (5 seconds): the
    first forty-nine raise the progress by 2 and call nothing, and the
    fiftieth does what "next" does, with the progress back at 0. *)
Theorem fifty_ticks_per_story p i :
  (∀ k, k < 50 →
     Nat.iter k (λ s, (tick p s).1) (mkState i 0 false)
       = mkState i (2 * Z.of_nat k) false ∧
     (k < 49 →
        (tick p (Nat.iter k (λ s, (tick p s).1) (mkState i 0 false))).2 = [])) ∧
  tick p (Nat.iter 49 (λ s, (tick p s).1) (mkState i 0 false))
    = (mkState (currentIndex (goToNext p (mkState i 98 false)).1) 0 false,
       (goToNext p (mkState i 98 false)).2).
Proof.
  split.
  - intros k Hk. split; [by apply ticks_raise_progress|].
    intros Hk'. rewrite ticks_raise_progress by done. unfold tick. simpl.
    change (100 / (STORY_DURATION / 100))%Z with 2%Z.
    by rewrite (proj2 (Z.leb_gt _ _)) by lia.
  - rewrite ticks_raise_progress by lia. unfold tick. simpl.
    change (100 / (STORY_DURATION / 100))%Z with 2%Z. simpl.
    unfold goToNext. simpl.
    destruct (i <? Z.of_nat (length (stories p)) - 1)%Z; [done|].
    by destruct (onNextUser p).
Qed.
End ViewerInvariants.

Section ViewerAcrossUsers.
Import StoriesView StoriesNav.

(** X7. The viewer keeps its index when "next user" changes its props:
    after the last story of a sequence of [n] stories, the next author's
    sequence is entered at position [n - 1], not at its start; when that
    sequence has fewer than [n] stories there is no current story, and no
    story is marked as viewed. *)
Theorem viewer_keeps_index_across_users gs v v' (n : nat) p :
  length (v_stories v) = n →
  1 ≤ n →
  (100 ≤ p + 2)%Z →
  handleNextUser gs (Some v) = Some v' →
  let s' := step gs (mkSession (Some v) (StoryViewer.mkState (Z.of_nat n - 1) p false))
                 Tick in
  viewing s' = Some v' ∧
  viewer s' = StoryViewer.mkState (Z.of_nat n - 1) 0 false ∧
  StoryViewer.currentStory (props_of v') (viewer s') = v_stories v' !! (n - 1) ∧
  (length (v_stories v') < n →
     StoryViewer.currentStory (props_of v') (viewer s') = None ∧
     ∀ user, StoryViewer.markViewed user (props_of v') (viewer s') = None).
Proof.
  intros Hlen Hn Hfull Hnext.
  assert (Hstep : step gs (mkSession (Some v)
             (StoryViewer.mkState (Z.of_nat n - 1) p false)) Tick
           = mkSession (Some v') (StoryViewer.mkState (Z.of_nat n - 1) 0 false)).
  { unfold step. cbn [viewing viewer].
    unfold StoryViewer.tick, StoryViewer.goToNext. cbn -[handleNextUser].
    change (100 / (StoryViewer.STORY_DURATION / 100))%Z with 2%Z.
    rewrite (proj2 (Z.leb_le _ _) Hfull), Hlen.
    rewrite (proj2 (Z.ltb_ge _ _)) by lia. cbn -[handleNextUser]. by rewrite Hnext. }
  cbv zeta. rewrite Hstep. cbn [viewing viewer].
  assert (Hcur : StoryViewer.currentStory (props_of v')
            (StoryViewer.mkState (Z.of_nat n - 1) 0 false) = v_stories v' !! (n - 1)).
  { unfold StoryViewer.currentStory. cbn.
    rewrite (proj2 (Z.ltb_ge _ _)) by lia. f_equal. lia. }
  split; [done|]. split; [done|]. split; [done|].
  intros Hshort.
  assert (Hnone : StoryViewer.currentStory (props_of v')
            (StoryViewer.mkState (Z.of_nat n - 1) 0 false) = None).
  { rewrite Hcur. apply lookup_ge_None. lia. }
  split; [done|]. intros user. unfold StoryViewer.markViewed.
  rewrite Hnone. by destruct user.
Qed.
End ViewerAcrossUsers.

Section StoriesExtrasWitness.
Import StoriesView StoriesNav StoryViewer Fixtures Scenarios.

Lemma fetchStories_one_group_per_author_witness :
  id (g_user bob_group) ≠ alice ∧ g_stories bob_group ≠ [].
Proof.
  apply (proj2 (fetchStories_one_group_per_author alice 100 db_stories stories0)).
  by_compute.
Defined.

Lemma fetchStories_newest_first_witness :
  StronglySorted (λ a b, created_desc (story_row a) (story_row b) = true)
    (g_stories bob_group).
Proof.
  apply (proj2 (fetchStories_newest_first alice 100 db_stories stories0)).
  by_compute.
Defined.


Lemma viewer_stays_in_range_witness :
  Forall (λ st', (0 ≤ currentIndex st' < Z.of_nat (length (stories viewer_props)))%Z ∧
                 (0 ≤ progress st' < 100)%Z ∧
                 is_Some (currentStory viewer_props st'))
    [(tick viewer_props at_end).1; (goToNext viewer_props at_end).1;
     (goToPrev viewer_props at_end).1].
Proof.
  apply viewer_stays_in_range; simpl; lia.
Defined.

Lemma fifty_ticks_per_story_witness :
  Nat.iter 10 (λ s, (tick viewer_props s).1) (StoryViewer.mkState 0 0 false)
    = StoryViewer.mkState 0 20 false.
Proof.
  apply (proj1 (proj1 (fifty_ticks_per_story viewer_props 0) 10
                  (Nat.lt_le_trans _ _ _ (Nat.lt_succ_diag_r 10) (Nat.le_add_r 11 39)))).
Defined.

Lemma viewer_keeps_index_across_users_witness :
  let s' := step bob_then_carol
              (mkSession (Some viewing_bob) (StoryViewer.mkState 1 98 false)) Tick in
  viewing s' = Some viewing_carol ∧
  currentStory (props_of viewing_carol) (viewer s') = None.
Proof.
  destruct (viewer_keeps_index_across_users bob_then_carol viewing_bob viewing_carol 2 98)
    as (Hv & _ & _ & Hshort).
  - reflexivity.
  - lia.
  - lia.
  - reflexivity.
  - split; [exact Hv|]. apply Hshort. simpl. lia.
Defined.
End StoriesExtrasWitness.

(** ** The conversation list: what each entry holds *)

Section SortedHead.
Context {A : Type} (before : A → A → bool).

Lemma sort_by_head_first l x :
  (∀ x y, before x y = false → before y x = true) →
  (∀ x y z, before x y = true → before y z = true → before x z = true) →
  head (sort_by before l) = Some x →
  x ∈ l ∧ ∀ y, y ∈ l → before x y = true.
Proof.
  intros Htotal Htrans Hhead.
  pose proof (sort_by_StronglySorted before l Htotal Htrans) as Hs.
  apply head_Some in Hhead as [t Ht]. rewrite Ht in Hs.
  apply StronglySorted_inv in Hs as [_ Hall].
  assert (Hin : ∀ y, y ∈ l ↔ y ∈ x :: t)
    by (intros y; by rewrite <- Ht, sort_by_elem_of).
  split; [apply Hin; by left|].
  intros y [->|Hy]%Hin%elem_of_cons.
  - destruct (before x x) eqn:Hxx; [done|]. by rewrite (Htotal _ _ Hxx) in Hxx.
  - by apply (proj1 (Forall_forall _ _) Hall).
Qed.
End SortedHead.

Section ConversationEntries.
Import useConversations.


Lemma fetchConversations_entry u db c :
  c ∈ conversations (fetchConversations (Some u) db) →
  ∃ allMembers,
    c = with_details db u allMembers (row c) ∧
    ∀ m, m ∈ allMembers →
         member_row m ∈ t_conversation_members db ∧
         profile m = embed_profile db (conversation_members.user_id (member_row m)).
Proof.
  unfold fetchConversations.
  destruct (filter _ (t_conversation_members db)) as [|m0 ms] eqn:Hm.
  - by intros ?%elem_of_nil.
  - cbn [conversations]. intros (r & -> & Hr)%list_elem_of_fmap.
    eexists. split; [reflexivity|].
    intros m (mr & -> & Hmr)%list_elem_of_fmap.
    apply list_elem_of_filter in Hmr as [_ Hmr]. done.
Qed.

(** X9. The counterpart shown for a conversation is never the user
    themself: when [other_user] is set, the conversation is not a group and
    the profile is that of a member of this conversation other than the
    user. *)
Theorem other_user_is_counterpart u db c p :
  c ∈ conversations (fetchConversations (Some u) db) →
  other_user c = Some p →
  conversations.is_group (row c) = false ∧
  profiles.id p ≠ u ∧
  ∃ m, m ∈ t_conversation_members db ∧
       conversation_members.conversation_id m = conversations.id (row c) ∧
       conversation_members.user_id m = profiles.id p.
Proof.
  intros Hc Hother.
  destruct (fetchConversations_entry _ _ _ Hc) as (allMembers & Heq & Hall).
  rewrite Heq in Hother. unfold with_details in Hother. cbn [other_user row] in Hother.
  destruct (conversations.is_group (row c)); [done|]. split; [done|].
  simpl in Hother. case_bool_decide; [|done].
  destruct (List.find _ _) as [om|] eqn:Hfind; [|done].
  apply find_some in Hfind as [Hin Hne]. apply list_elem_of_In in Hin.
  apply list_elem_of_filter in Hin as [Hconv Hin].
  destruct (Hall _ Hin) as [Hrow Hprof].
  rewrite Hprof in Hother. apply embed_profile_id in Hother.
  apply negb_true_iff, String.eqb_neq in Hne. split; [by rewrite Hother|].
  exists (member_row om). by rewrite Hother.
Qed.

(** X10. The preview of a conversation is its newest message: it belongs to
    the conversation, no message of the conversation was created later, and
    there is none only when the conversation has no message. *)
Theorem last_message_is_newest u db c :
  c ∈ conversations (fetchConversations (Some u) db) →
  (∀ m, last_message c = Some m →
        m ∈ t_messages db ∧
        messages.conversation_id m = conversations.id (row c) ∧
        ∀ m', m' ∈ t_messages db →
              messages.conversation_id m' = conversations.id (row c) →
              ts_leb (messages.created_at m') (messages.created_at m) = true) ∧
  (last_message c = None →
     ∀ m', m' ∈ t_messages db →
           messages.conversation_id m' ≠ conversations.id (row c)).
Proof.
  intros Hc.
  destruct (fetchConversations_entry _ _ _ Hc) as (allMembers & Heq & _).
  rewrite Heq. unfold with_details. cbn [last_message row]. split.
  - intros m Hhead. apply sort_by_head_first in Hhead as [Hin Hfirst].
    + apply list_elem_of_filter in Hin as [Hconv Hin]. split; [done|]. split; [done|].
      intros m' Hm' Hconv'. apply (Hfirst m'). by apply list_elem_of_filter.
    + intros x y. unfold created_desc. apply ts_leb_total.
    + intros x y z H1 H2. unfold created_desc in *. by apply (ts_leb_trans _ _ _ H2 H1).
  - intros Hnone%head_None m' Hm' Hconv'.
    assert (Hin : m' ∈ sort_by created_desc
              (filter (λ m, messages.conversation_id m = conversations.id (row c))
                      (t_messages db)))
      by (by apply sort_by_elem_of, list_elem_of_filter).
    rewrite Hnone in Hin. by apply elem_of_nil in Hin.
Qed.
End ConversationEntries.

(** ** Searching the lists *)



Section ListSearch.
Import useConversations.

End ListSearch.

Section NewChat.
Import NewChatDialog.

(** X12. Ticking a user in the new-chat dialog flips their membership in
    the selection and leaves everyone else as they were; a duplicate-free
    selection stays duplicate-free, and ticking twice a user who was not
    selected gives the selection back. *)
Theorem toggle_flips_membership (userId : uuid) (prev : list uuid) :
  (∀ x, x ∈ toggle userId prev ↔
        (x = userId ∧ userId ∉ prev) ∨ (x ≠ userId ∧ x ∈ prev)) ∧
  (NoDup prev → NoDup (toggle userId prev)) ∧
  (userId ∉ prev → toggle userId (toggle userId prev) = prev).
Proof.
  unfold toggle. split; [|split].
  - intros x. case_decide as Hin.
    + rewrite list_elem_of_filter. split; [tauto|]. intros [[-> ?]|?]; tauto.
    + rewrite elem_of_app, list_elem_of_singleton. split.
      * intros [Hx| ->]; [|tauto]. right. split; [|done]. by intros ->.
      * tauto.
  - intros Hnd. case_decide as Hin; [by apply NoDup_filter|].
    apply NoDup_app. split; [done|]. split; [|apply NoDup_singleton].
    intros x Hx ->%list_elem_of_singleton. done.
  - intros Hnotin. rewrite (decide_False (P:=userId ∈ prev)) by done.
    rewrite decide_True by (apply elem_of_app; right; by left).
    rewrite filter_app, filter_cons_False, filter_nil, app_nil_r by (by intros []).
    induction prev as [|y prev IH]; [done|].
    apply not_elem_of_cons in Hnotin as [Hne Hnotin].
    rewrite filter_cons_True by done. f_equal. by apply IH.
Qed.

Lemma createConversation_data g1 g2 user memberIds isGroup0 name db hook db' hook' r conv :
  useConversations.createConversation g1 g2 user memberIds isGroup0 name db hook
    = (db', hook', r) →
  useConversations.data r = Some conv →
  useConversations.error r = None ∧
  conv ∈ t_conversations db' ∧
  conversations.is_group conv = isGroup0 ∧
  conversations.name conv = (if isGroup0 then name else None).
Proof.
  unfold useConversations.createConversation. destruct user as [u|]; [|by intros [= <- <- <-]].
  destruct (insert_conversation _ _ _ _ _) as [db1 [e|c]] eqn:Hins;
    [by intros [= <- <- <-]|].
  apply insert_conversation_inr in Hins as [Hc Hdb1].
  destruct (insert_members _ _ _) as [db2 [e|]] eqn:Hmem; [by intros [= <- <- <-]|].
  apply insert_members_ok in Hmem.
  intros [= <- <- <-] [= <-]. split; [done|]. rewrite Hmem, Hdb1, Hc. simpl.
  split; [|done]. apply elem_of_app. right. by left.
Qed.

(** X13. What the new-chat dialog creates: nothing is written when no user
    is selected or when the group box is ticked with a blank name. When a
    conversation is created, it is a group exactly when the box is ticked
    or more than one user is selected; a group always gets a non-empty
    name ("Nouveau groupe" when the field is blank), and a conversation
    with a single selected user and the box unticked gets none. *)
Theorem handleCreate_group_rule (trim : string → string) g1 g2 user db hook st :
  let '(db', hook', st', out) := handleCreate trim g1 g2 user db hook st in
  (selectedUsers st = [] ∨ (isGroup st = true ∧ trim (groupName st) = "") →
     db' = db ∧ hook' = hook ∧ st' = st ∧ closed out = false ∧
     destructive (toast out) = true) ∧
  (closed out = true →
     ∃ conv, conv ∈ t_conversations db' ∧
       conversations.is_group conv
         = (isGroup st || bool_decide (1 < length (selectedUsers st))) ∧
       (conversations.is_group conv = true →
          ∃ n, conversations.name conv = Some n ∧ n ≠ "") ∧
       (conversations.is_group conv = false →
          conversations.name conv = None ∧ length (selectedUsers st) = 1)).
Proof.
  unfold handleCreate.
  destruct (selectedUsers st) as [|s0 sel] eqn:Hsel.
  { split; [done|]. done. }
  destruct (isGroup st && String.eqb (trim (groupName st)) "") eqn:Hblank.
  { split; [done|]. done. }
  destruct (useConversations.createConversation _ _ _ _ _ _ _ _)
    as [[db' hook'] r] eqn:Hcreate.
  destruct (useConversations.error r) as [e|] eqn:Herr.
  { split; [|done]. intros [?|[Hg Hname]]; [done|].
    by rewrite Hg, Hname in Hblank. }
  split.
  { intros [?|[Hg Hname]]; [done|]. by rewrite Hg, Hname in Hblank. }
  intros _.
  assert (Hdata : ∃ conv, useConversations.data r = Some conv).
  { revert Hcreate Herr. unfold useConversations.createConversation.
    destruct user; [|by intros [= <- <- <-]].
    destruct (insert_conversation _ _ _ _ _) as [? [?|c]]; [by intros [= <- <- <-]|].
    destruct (insert_members _ _ _) as [? [?|]]; [by intros [= <- <- <-]|].
    intros [= <- <- <-] _. by exists c. }
  destruct Hdata as [conv Hdata].
  destruct (createConversation_data _ _ _ _ _ _ _ _ _ _ _ _ Hcreate Hdata)
    as (_ & Hin & Hgroup & Hname).
  exists conv. split; [done|]. split; [done|]. rewrite Hgroup in *. split.
  - intros Hg. rewrite Hg in Hname. eexists. split; [exact Hname|].
    unfold ChatView.or_else. destruct (String.eqb_spec (trim (groupName st)) ""); done.
  - intros Hg. rewrite Hg in Hname. split; [done|].
    apply orb_false_iff in Hg as [_ Hlen%bool_decide_eq_false]. simpl in *. lia.
Qed.
End NewChat.

(** ** Sending a message *)

Section SendingMessages.
Import SendMessage.

Lemma insert_message_ok g cid u content type url name db db1 :
  insert_message g cid u content type url name db = (db1, None) →
  (gen_random_uuid g ∉ messages.id <$> t_messages db) ∧
  cid ∈ conversations.id <$> t_conversations db ∧
  db1 = with_messages
          (t_messages db ++
             [messages.mk (gen_random_uuid g) cid (Some u) (Some content) type url name
                false (Some (now g)) (Some (now g))]) db.
Proof.
  unfold insert_message. destruct (fault g); [done|].
  case_bool_decide; [done|]. case_bool_decide; simpl; [|done].
  destruct (has_profile db u); [|done]. by intros [= <-].
Qed.

Lemma insert_message_error g cid u content type url name db db1 e :
  insert_message g cid u content type url name db = (db1, Some e) → db1 = db.
Proof.
  unfold insert_message. destruct (fault g); [by intros [= <-]|].
  case_bool_decide; [by intros [= <-]|]. destruct (negb _); [by intros [= <-]|done].
Qed.

(** X14. A send that fails writes nothing: the message table and the
    conversation's [updated_at] are as before. A send that succeeds adds
    one unread message row with the given fields, created at the
    gateway's time, and changes no conversation other than the one it was
    sent to; memberships and profiles are untouched. *)
Theorem sendMessage_effect g1 g2 client_time cid u content type url name db :
  let '(db', error) :=
    sendMessage g1 g2 client_time (Some cid) (Some u) content type url name db in
  match error with
  | Some _ => db' = db
  | None =>
      t_messages db' = t_messages db ++
        [messages.mk (gen_random_uuid g1) cid (Some u) (Some content) type url name
           false (Some (now g1)) (Some (now g1))] ∧
      (gen_random_uuid g1 ∉ messages.id <$> t_messages db) ∧
      t_conversation_members db' = t_conversation_members db ∧
      t_profiles db' = t_profiles db ∧
      length (t_conversations db') = length (t_conversations db) ∧
      (∀ c, c ∈ t_conversations db → conversations.id c ≠ cid →
            c ∈ t_conversations db')
  end.
Proof.
  unfold sendMessage.
  destruct (insert_message _ _ _ _ _ _ _ _) as [db1 [e|]] eqn:Hins.
  - by apply insert_message_error in Hins.
  - apply insert_message_ok in Hins as (Hfresh & _ & ->).
    unfold touch_conversation. destruct (fault g2); simpl.
    + repeat split; try done.
    + repeat split; try done.
      * by rewrite length_fmap.
      * intros c Hc Hne. apply list_elem_of_fmap. exists c. split; [|done].
        by destruct (String.eqb_spec (conversations.id c) cid).
Qed.

Lemma NoDup_fmap_eq {A B} (f : A → B) (l : list A) x y :
  NoDup (f <$> l) → x ∈ l → y ∈ l → f x = f y → x = y.
Proof.
  intros Hnd [i Hi]%list_elem_of_lookup [j Hj]%list_elem_of_lookup Heq.
  assert (i = j) as ->; [|congruence].
  apply (NoDup_lookup _ i j (f x) Hnd); rewrite list_lookup_fmap.
  - by rewrite Hi.
  - by rewrite Hj, Heq.
Qed.

End SendingMessages.

Section SendThenNotify.
Import SendMessage useMessages.




End SendThenNotify.

(** ** Files and attachments *)

Section FileNames.
Import useFileUpload.

Lemma split_dot_dot_free s : dot_free s = true → split_dot s = [s].
Proof.
  induction s as [|c s IH]; [done|]. simpl.
  intros [Hc Hs]%andb_true_iff. rewrite (IH Hs).
  by apply negb_true_iff in Hc as ->.
Qed.

Lemma split_dot_snoc pre ext :
  dot_free ext = true →
  ∃ seg init, split_dot (pre +:+ "." +:+ ext) = seg :: init ++ [ext].
Proof.
  intros Hext. induction pre as [|c pre (seg & init & IH)].
  - change ("" +:+ "." +:+ ext) with (String "."%char ext).
    cbn [split_dot]. rewrite (split_dot_dot_free _ Hext). by exists "", [].
  - change (String c pre +:+ "." +:+ ext) with (String c (pre +:+ "." +:+ ext)).
    cbn [split_dot]. rewrite IH. destruct (Ascii.eqb c "."%char).
    + by exists "", (seg :: init).
    + by exists (String c seg), init.
Qed.

(** X18. The extension of the stored object is the text after the last dot
    of the file name; a file name without a dot is taken whole as its
    extension. *)
Theorem fileExt_after_last_dot :
  (∀ name, dot_free name = true → fileExt name = name) ∧
  (∀ pre ext, dot_free ext = true → fileExt (pre +:+ "." +:+ ext) = ext).
Proof.
  unfold fileExt. split.
  - intros name Hname. by rewrite split_dot_dot_free.
  - intros pre ext Hext. destruct (split_dot_snoc pre ext Hext) as (seg & init & ->).
    by rewrite app_comm_cons, last_snoc.
Qed.
End FileNames.

Section SendingAttachments.
Import ChatView useFileUpload.

Lemma or_else_nonempty a b : b ≠ "" → or_else a b ≠ "".
Proof. intros Hb. unfold or_else. by destruct (String.eqb_spec a ""). Qed.

(** X19. A message with only a file attached carries the file's name as its
    content ("Fichier" when the name is empty), the address the storage
    gives for the object stored under the sender's folder, the file name,
    and the type "image" exactly when the file's type starts with
    "image/"; the draft is cleared. *)
Theorem handleSend_file_only
    (trim : string → string) upload getPublicUrl date_now u st (file : File) :
  selectedFile st = Some file →
  sending st = false →
  trim (newMessage st) = "" →
  let path := u +:+ "/" +:+ decimal date_now +:+ "." +:+ fileExt (name file) in
  upload "chat-attachments" path file = None →
  handleSend trim (uploadChatAttachment upload getPublicUrl date_now (Some u)) st
  = (mkState "" false None,
     [StopTyping; UploadChatAttachment file;
      SendMessage (or_else (name file) "Fichier")
        (if String.prefix "image/" (type file) then "image" else "file")
        (Some (getPublicUrl "chat-attachments" path)) (Some (name file))]).
Proof.
  intros Hfile Hsending Htrim path Hup. unfold handleSend.
  rewrite Hfile, Hsending, Htrim. simpl.
  unfold uploadChatAttachment, uploadFile. fold path. by rewrite Hup.
Qed.

(** X20. When the upload of the attachment fails, or the user is not signed
    in, no message is sent: the handler shows the error toast and keeps the
    text and the selected file for another try. *)
Theorem handleSend_upload_failure
    (trim : string → string) upload getPublicUrl date_now user st (file : File) e :
  selectedFile st = Some file →
  sending st = false →
  uploadChatAttachment upload getPublicUrl date_now user file = inl e →
  handleSend trim (uploadChatAttachment upload getPublicUrl date_now user) st
  = (mkState (newMessage st) false (Some file),
     [StopTyping; UploadChatAttachment file; ShowToast send_failed]).
Proof.
  intros Hfile Hsending Hup. unfold handleSend.
  rewrite Hfile, Hsending, Hup, orb_false_r, andb_false_r. done.
Qed.

(** X21. Whatever the draft and the reply of the upload, the send handler
    never sends a message with empty content, sends at most one message,
    and does nothing at all while a send is in progress or when there is
    neither text nor file. *)
Theorem handleSend_never_empty (trim : string → string)
    (upload : File → Err + UploadResult) st :
  (∀ c t u n, SendMessage c t u n ∈ (handleSend trim upload st).2 → c ≠ "") ∧
  length (filter (λ e, is_send e = true) (handleSend trim upload st).2) ≤ 1 ∧
  (sending st = true ∨ (trim (newMessage st) = "" ∧ selectedFile st = None) →
     handleSend trim upload st = (st, [])).
Proof.
  unfold handleSend. split; [|split].
  - intros c t u n.
    destruct ((String.eqb (trim (newMessage st)) "" && _) || sending st);
      [by intros ?%elem_of_nil|].
    destruct (selectedFile st) as [file|]; [destruct (upload file)|]; simpl;
      intros Hin; repeat (apply elem_of_cons in Hin as [Hin|Hin]; try discriminate);
      try (by apply elem_of_nil in Hin); injection Hin as -> _ _ _;
      repeat apply or_else_nonempty; done.
  - destruct ((String.eqb (trim (newMessage st)) "" && _) || sending st); [simpl; lia|].
    destruct (selectedFile st) as [file|]; [destruct (upload file)|]; simpl; lia.
  - intros [Hs|[Ht Hf]].
    + by rewrite Hs, orb_true_r.
    + by rewrite Ht, Hf.
Qed.
End SendingAttachments.

Section AvatarChange.
Import ChatView SettingsView.

(** X22. The avatar handler uploads only a file whose type starts with
    "image/" and whose size is at most 5 * 1024 * 1024 bytes. Unless it
    reports success, the stored profiles and the local profile are
    untouched; when it does, the user's stored avatar and the local copy
    are the address of the uploaded object, and other profiles are as
    before. *)
Theorem handleAvatarChange_checks (uploadAvatar : File → Err + UploadResult)
    g user files db profile :
  let '(db', profile', effects) :=
    handleAvatarChange uploadAvatar g user files db profile in
  (∀ f, UploadAvatar f ∈ effects →
        head files = Some f ∧ String.prefix "image/" (type f) = true ∧
        (size f ≤ 5 * 1024 * 1024)%Z) ∧
  (ShowToast avatar_updated ∉ effects → db' = db ∧ profile' = profile) ∧
  (ShowToast avatar_updated ∈ effects →
     ∃ file data u,
       head files = Some file ∧ uploadAvatar file = inr data ∧ user = Some u ∧
       (∀ p, p ∈ t_profiles db' → profiles.id p = u →
             profiles.avatar_url p = Some (url data)) ∧
       (∀ p, p ∈ t_profiles db → profiles.id p ≠ u → p ∈ t_profiles db') ∧
       (∀ p, profile' = Some p → profiles.avatar_url p = Some (url data))).
Proof.
  unfold handleAvatarChange.
  assert (Hquiet : ∀ (t : Toast) (db0 : Database) (pr : option profiles.Row),
    t ≠ avatar_updated →
    (∀ f, UploadAvatar f ∈ [ShowToast t] →
          head files = Some f ∧ String.prefix "image/" (type f) = true ∧
          (size f ≤ 5 * 1024 * 1024)%Z) ∧
    (ShowToast avatar_updated ∉ [ShowToast t] → db0 = db0 ∧ pr = pr) ∧
    (ShowToast avatar_updated ∈ [ShowToast t] →
       ∃ file data u,
         head files = Some file ∧ uploadAvatar file = inr data ∧ user = Some u ∧
         (∀ p, p ∈ t_profiles db0 → profiles.id p = u →
               profiles.avatar_url p = Some (url data)) ∧
         (∀ p, p ∈ t_profiles db → profiles.id p ≠ u → p ∈ t_profiles db0) ∧
         (∀ p, pr = Some p → profiles.avatar_url p = Some (url data)))).
  { intros t db0 pr Ht. split; [|split; [done|]].
    - by intros f [=]%list_elem_of_singleton.
    - intros [= Heq]%list_elem_of_singleton. by rewrite Heq in Ht. }
  destruct (head files) as [file|] eqn:Hhead.
  2:{ split; [by intros f ?%elem_of_nil|]. split; [done|]. by intros ?%elem_of_nil. }
  destruct (String.prefix "image/" (type file)) eqn:Himg; simpl;
    [|by apply Hquiet].
  destruct (Z.ltb_spec (5 * 1024 * 1024) (size file)) as [Hbig|Hsmall];
    [by apply Hquiet|].
  assert (Hup_ok : ∀ l f, UploadAvatar f ∈ UploadAvatar file :: l →
            (∀ g0, UploadAvatar g0 ∉ l) →
            Some file = Some f ∧ String.prefix "image/" (type f) = true ∧
            (size f ≤ 5 * 1024 * 1024)%Z).
  { intros l f [[= ->]|Hf]%elem_of_cons Hl; [done|]. by apply Hl in Hf. }
  assert (Hno1 : ∀ t g0, UploadAvatar g0 ∉ [ShowToast t])
    by (by intros t g0 [=]%list_elem_of_singleton).
  assert (Hno2 : ∀ t x g0, UploadAvatar g0 ∉ [UpdateProfile x; ShowToast t]).
  { intros t x g0 [[=]|[=]%list_elem_of_singleton]%elem_of_cons. }
  assert (Hfail : ∀ t l, t ≠ avatar_updated →
            (∀ x, x ∈ l → ∃ y, x = UpdateProfile y) →
            ShowToast avatar_updated ∉ UploadAvatar file :: l ++ [ShowToast t]).
  { intros t l Ht Hl [[=]|[Hin|[= Heq]%list_elem_of_singleton]%elem_of_app]%elem_of_cons.
    - by destruct (Hl _ Hin).
    - by rewrite Heq in Ht. }
  destruct (uploadAvatar file) as [e|data] eqn:Hup.
  { split; [|split; [done|]].
    - intros f Hf. by apply (Hup_ok _ _ Hf).
    - intros Hin. by apply (Hfail upload_failed []) in Hin; [| |intros x ?%elem_of_nil]. }
  assert (Hupd : ∀ x, x ∈ [UpdateProfile (url data)] → ∃ y, x = UpdateProfile y)
    by (intros x ->%list_elem_of_singleton; by eexists).
  unfold updateProfile_avatar. destruct user as [u|].
  2:{ split; [|split; [done|]].
      - intros f Hf. by apply (Hup_ok _ _ Hf).
      - intros Hin. by apply (Hfail update_failed [UpdateProfile (url data)]) in Hin. }
  unfold update_avatar. destruct (fault g).
  { split; [|split; [done|]].
    - intros f Hf. by apply (Hup_ok _ _ Hf).
    - intros Hin. by apply (Hfail update_failed [UpdateProfile (url data)]) in Hin. }
  split; [|split].
  - intros f Hf. by apply (Hup_ok _ _ Hf).
  - intros Hnot. exfalso. apply Hnot. right. right. by left.
  - intros _. exists file, data, u. repeat split; try done.
    + intros p (p0 & -> & Hp0)%list_elem_of_fmap Hid. simpl in *.
      by destruct (String.eqb_spec (profiles.id p0) u).
    + intros p Hp Hne. simpl. apply list_elem_of_fmap. exists p. split; [|done].
      by destruct (String.eqb_spec (profiles.id p) u).
    + intros p. destruct profile; [|done]. by intros [= <-].
Qed.
End AvatarChange.

(** ** Publishing a story *)

Section StoryCreation.
Import ChatView CreateStoryDialog.

Lemma insert_story_ok g u content image_url bg db db' :
  insert_story g u content image_url bg db = (db', None) →
  t_stories db' = t_stories db ++
    [stories.mk (gen_random_uuid g) u content image_url bg
       (Some (now g + interval_24_hours)%Z) (Some (now g))] ∧
  t_profiles db' = t_profiles db ∧
  t_story_views db' = t_story_views db.
Proof.
  unfold insert_story. destruct (fault g); [done|].
  case_bool_decide; [done|]. destruct (negb _); [done|]. by intros [= <-].
Qed.

Lemma insert_story_error g u content image_url bg db db' e :
  insert_story g u content image_url bg db = (db', Some e) → db' = db.
Proof.
  unfold insert_story. destruct (fault g); [by intros [= <-]|].
  case_bool_decide; [by intros [= <-]|]. destruct (negb _); [by intros [= <-]|done].
Qed.

(** X23. What publishing stores. Nothing is written without text in text
    mode, without a file in image mode, or when the upload or the insert
    fails. A published story is one new row of the user. In image mode it
    has the uploaded image and neither text nor background. In text mode it
    has the text and the chosen background, and, when an image picked
    earlier is still held by the form, that image as well. *)
Theorem handleCreate_stores (trim : string → string)
    (uploadStoryMedia : File → Err + UploadResult) g u db st :
  let '(db', st', out) := handleCreate trim uploadStoryMedia g (Some u) db st in
  (created out = false → db' = db) ∧
  ((mode st = text ∧ trim (content st) = "") ∨ (mode st = image ∧ imageFile st = None) →
     created out = false ∧ st' = st) ∧
  (created out = true →
     st' = initial ∧
     ∃ s, t_stories db' = t_stories db ++ [s] ∧
       stories.id s = gen_random_uuid g ∧
       stories.user_id s = u ∧
       stories.created_at s = Some (now g) ∧
       stories.expires_at s = Some (now g + interval_24_hours)%Z ∧
       stories.content s = (if is_text (mode st) then Some (content st) else None) ∧
       stories.background_color s
         = (if is_text (mode st) then Some (backgroundColor st) else None) ∧
       match imageFile st with
       | Some file =>
           ∃ data, uploadStoryMedia file = inr data ∧
                   stories.image_url s = Some (url data)
       | None => stories.image_url s = None ∧ mode st = text
       end).
Proof.
  unfold handleCreate.
  destruct (is_text (mode st) && String.eqb (trim (content st)) "") eqn:Hblank.
  { split; [done|]. split; [done|]. done. }
  destruct (negb (is_text (mode st)) && bool_decide (¬ is_Some (imageFile st)))
    eqn:Hnofile.
  { split; [done|]. split; [done|]. done. }
  assert (Hvalid : ¬ ((mode st = text ∧ trim (content st) = "") ∨
                      (mode st = image ∧ imageFile st = None))).
  { intros [[Hm Hc]|[Hm Hf]].
    - by rewrite Hm, Hc in Hblank.
    - by rewrite Hm, Hf in Hnofile. }
  destruct (imageFile st) as [file|] eqn:Hfile.
  - destruct (uploadStoryMedia file) as [e|data] eqn:Hup.
    { split; [done|]. split; [by intros ?|done]. }
    destruct (insert_story _ _ _ _ _ _) as [db' [e|]] eqn:Hins.
    { apply insert_story_error in Hins. split; [done|]. split; [by intros ?|done]. }
    apply insert_story_ok in Hins as (Hs & _). split; [done|]. split; [by intros ?|].
    intros _. split; [done|]. eexists. split; [exact Hs|]. simpl.
    repeat split; try done. by exists data.
  - destruct (insert_story _ _ _ _ _ _) as [db' [e|]] eqn:Hins.
    { apply insert_story_error in Hins. split; [done|]. split; [by intros ?|done]. }
    apply insert_story_ok in Hins as (Hs & _). split; [done|]. split; [by intros ?|].
    intros _. split; [done|]. eexists. split; [exact Hs|]. simpl.
    repeat split; try done.
    by destruct (mode st).
Qed.
End StoryCreation.

Section StoryLifetime.
Import ChatView CreateStoryDialog StoriesView.

Lemma handleCreate_created (trim : string → string)
    (uploadStoryMedia : File → Err + UploadResult) g u db st db' st' out :
  handleCreate trim uploadStoryMedia g (Some u) db st = (db', st', out) →
  created out = true →
  ∃ c i b, insert_story g u c i b db = (db', None).
Proof.
  unfold handleCreate.
  destruct (is_text (mode st) && _); [by intros [= <- <- <-]|].
  destruct (negb (is_text (mode st)) && _); [by intros [= <- <- <-]|].
  destruct (imageFile st) as [file|].
  - destruct (uploadStoryMedia file); [by intros [= <- <- <-]|].
    destruct (insert_story _ _ _ _ _ _) as [db1 [e|]] eqn:Hins;
      [by intros [= <- <- <-]|].
    intros [= <- <- <-] _. eauto.
  - destruct (insert_story _ _ _ _ _ _) as [db1 [e|]] eqn:Hins;
      [by intros [= <- <- <-]|].
    intros [= <- <- <-] _. eauto.
Qed.

(** X24. A published story is listed under "my stories" of its author for
    every fetch made at a time before its creation time plus 24 hours, and
    for none made at or after that time. *)
Theorem published_story_listed_for_24_hours (trim : string → string)
    (uploadStoryMedia : File → Err + UploadResult) g u db st db' st' out view t :
  handleCreate trim uploadStoryMedia g (Some u) db st = (db', st', out) →
  created out = true →
  (∃ x, x ∈ myStories (fetchStories (Some u) t db' view) ∧
        story_id x = gen_random_uuid g) ↔
  (t < now g + interval_24_hours)%Z.
Proof.
  intros Hcreate Hcreated.
  destruct (handleCreate_created _ _ _ _ _ _ _ _ _ Hcreate Hcreated)
    as (c & i & b & Hins).
  assert (Hfresh : gen_random_uuid g ∉ stories.id <$> t_stories db).
  { revert Hins. unfold insert_story. destruct (fault g); [done|].
    by case_bool_decide. }
  apply insert_story_ok in Hins as (Hs & _).
  set (new := stories.mk (gen_random_uuid g) u c i b
                (Some (now g + interval_24_hours)%Z) (Some (now g))) in *.
  cbn [fetchStories myStories]. split.
  - intros (x & [Hu Hx]%list_elem_of_filter & Hid).
    apply fetched_story_elem_of in Hx as (_ & Hin & Hact).
    rewrite Hs in Hin. apply elem_of_app in Hin as [Hold|Hnew%list_elem_of_singleton].
    + exfalso. apply Hfresh. rewrite <- Hid. unfold story_id.
      by apply list_elem_of_fmap_2.
    + unfold active in Hact. rewrite Hnew in Hact. simpl in Hact.
      by apply Z.ltb_lt.
  - intros Hlt. exists (mkStory new (embed_user db' u)). split; [|done].
    apply list_elem_of_filter. split; [done|].
    apply fetched_story_elem_of. split; [done|]. split.
    + rewrite Hs. apply elem_of_app. right. by left.
    + unfold active. simpl. by apply Z.ltb_lt.
Qed.
End StoryLifetime.

(** ** Contact requests: the whole round *)

Section ContactLists.
Import ContactsView.

(** Entries of the two request lists are stored pending rows. *)
Lemma pending_entry_row u db st c :
  c ∈ pendingReceived (fetchContacts (Some u) db st) ∨
  c ∈ pendingSent (fetchContacts (Some u) db st) →
  row c ∈ t_contacts db ∧ contacts.status (row c) = "pending".
Proof.
  cbn [fetchContacts pendingReceived pendingSent].
  intros [Hc|Hc];
    apply list_elem_of_fmap in Hc as (r & -> & [[? ?] ?]%list_elem_of_filter); done.
Qed.

(** X25. The three contact lists sort the rows that involve the user: the
    received requests are the pending rows addressed to the user, the sent
    requests the pending rows the user started, the contacts the accepted
    rows of either direction; every stored row of the user that is pending
    or accepted is in one of them. *)
Theorem fetchContacts_sorts_rows u db st :
  let st' := fetchContacts (Some u) db st in
  (∀ c, c ∈ pendingReceived st' →
        row c ∈ t_contacts db ∧ contacts.status (row c) = "pending" ∧
        contacts.contact_id (row c) = u ∧
        user_profile c = embed_profile db (contacts.user_id (row c))) ∧
  (∀ c, c ∈ pendingSent st' →
        row c ∈ t_contacts db ∧ contacts.status (row c) = "pending" ∧
        contacts.user_id (row c) = u ∧
        contact_profile c = embed_profile db (contacts.contact_id (row c))) ∧
  (∀ c, c ∈ contacts st' →
        row c ∈ t_contacts db ∧ contacts.status (row c) = "accepted" ∧
        ((contacts.user_id (row c) = u ∧
          contact_profile c = embed_profile db (contacts.contact_id (row c))) ∨
         (contacts.contact_id (row c) = u ∧
          contact_profile c = embed_profile db (contacts.user_id (row c))))) ∧
  (∀ r, r ∈ t_contacts db →
        contacts.user_id r = u ∨ contacts.contact_id r = u →
        contacts.status r = "pending" ∨ contacts.status r = "accepted" →
        r ∈ row <$> (pendingReceived st' ++ pendingSent st' ++ contacts st')).
Proof.
  cbn [fetchContacts pendingReceived pendingSent contacts].
  split; [|split; [|split]].
  - intros c (r & -> & [[? ?] ?]%list_elem_of_filter)%list_elem_of_fmap. done.
  - intros c (r & -> & [[? ?] ?]%list_elem_of_filter)%list_elem_of_fmap. done.
  - intros c [Hc|Hc]%elem_of_app.
    + apply list_elem_of_fmap in Hc as (r & -> & [[? ?] ?]%list_elem_of_filter).
      split; [done|]. split; [done|]. by left.
    + apply list_elem_of_fmap in Hc as (c0 & -> & Hc0).
      apply list_elem_of_fmap in Hc0 as (r & -> & [[? ?] ?]%list_elem_of_filter).
      split; [done|]. split; [done|]. by right.
  - intros r Hr Hu Hs. rewrite !fmap_app, !elem_of_app.
    rewrite <- !list_fmap_compose.
    assert (Hin : ∀ (mk : contacts.Row → Contact) (P : contacts.Row → Prop)
              `{∀ x, Decision (P x)},
              (∀ x, row (mk x) = x) → P r → r ∈ row ∘ mk <$> filter P (t_contacts db)).
    { intros mk P ? Hmk HP. apply list_elem_of_fmap. exists r. split.
      - simpl. by rewrite Hmk.
      - by apply list_elem_of_filter. }
    destruct Hs as [Hs|Hs], Hu as [Hu|Hu].
    + right. left. by apply (Hin (with_contact_profile db)).
    + left. by apply (Hin (with_user_profile db)).
    + right. right. left. by apply (Hin (with_contact_profile db)).
    + right. right. right.
      apply (Hin (λ x, mkContact (row (with_user_profile db x))
                         (user_profile (with_user_profile db x))
                         (user_profile (with_user_profile db x)))); done.
Qed.

(** Changing the status of the row with a given id, when ids are unique. *)
Lemma accept_rows g contactId db r :
  fault g = None →
  NoDup (contacts.id <$> t_contacts db) →
  r ∈ t_contacts db → contacts.id r = contactId →
  ∀ x, x ∈ t_contacts (update_contact_status g contactId "accepted" db).1 ↔
       x = contacts.mk (contacts.id r) (contacts.user_id r) (contacts.contact_id r)
             "accepted" (contacts.created_at r) ∨
       (x ∈ t_contacts db ∧ contacts.id x ≠ contactId).
Proof.
  intros Hf Hnd Hr Hid x. unfold update_contact_status. rewrite Hf. simpl.
  rewrite list_elem_of_fmap. split.
  - intros (y & -> & Hy).
    destruct (String.eqb_spec (contacts.id y) contactId) as [Heq|Hne].
    + left. assert (y = r) as ->; [|done].
      apply (NoDup_fmap_eq contacts.id (t_contacts db)); congruence.
    + right. done.
  - intros [->|[Hx Hne]].
    + exists r. by rewrite Hid, String.eqb_refl.
    + exists x. by destruct (String.eqb_spec (contacts.id x) contactId).
Qed.

(** X26. Accepting a received request moves it from the requests to the
    contacts of both parties: with row ids unique and the gateway reached,
    after the target accepts the pending row from [a] to [b], that row is
    no longer among [b]'s received or [a]'s sent requests, [b]'s contact
    list has an entry of this row showing [a], [a]'s list one showing [b],
    and every other row is as it was. *)
Theorem handleAccept_moves_request g a b r db st :
  fault g = None →
  NoDup (contacts.id <$> t_contacts db) →
  r ∈ t_contacts db →
  contact_key r = (a, b) →
  let '(db', st', toast) := handleAccept g (Some b) (contacts.id r) db st in
  st' = fetchContacts (Some b) db' st ∧ destructive toast = false ∧
  (∀ c, c ∈ pendingReceived st' → contacts.id (row c) ≠ contacts.id r) ∧
  (∀ c, c ∈ pendingSent (fetchContacts (Some a) db' st) →
        contacts.id (row c) ≠ contacts.id r) ∧
  (∃ c, c ∈ contacts st' ∧ contacts.id (row c) = contacts.id r ∧
        contact_profile c = embed_profile db a) ∧
  (∃ c, c ∈ contacts (fetchContacts (Some a) db' st) ∧
        contacts.id (row c) = contacts.id r ∧
        contact_profile c = embed_profile db b) ∧
  (∀ x, x ∈ t_contacts db → contacts.id x ≠ contacts.id r → x ∈ t_contacts db').
Proof.
  intros Hf Hnd Hr Hkey. injection Hkey as Ha Hb.
  pose proof (accept_rows g (contacts.id r) db r Hf Hnd Hr eq_refl) as Hrows.
  unfold handleAccept.
  destruct (update_contact_status g (contacts.id r) "accepted" db) as [db' e] eqn:Hupd.
  assert (e = None ∧ t_profiles db' = t_profiles db) as [-> Hprof].
  { revert Hupd. unfold update_contact_status. rewrite Hf. by intros [= <- <-]. }
  simpl in Hrows.
  set (r' := contacts.mk (contacts.id r) (contacts.user_id r) (contacts.contact_id r)
               "accepted" (contacts.created_at r)) in *.
  assert (Hembed : ∀ x, embed_profile db' x = embed_profile db x)
    by (intros x; unfold embed_profile; by rewrite Hprof).
  split; [done|]. split; [done|].
  assert (Hpending : ∀ x, x ∈ t_contacts db' → contacts.status x = "pending" →
            contacts.id x ≠ contacts.id r).
  { intros x [->|[_ Hne]]%Hrows Hs; [done|done]. }
  split; [|split; [|split; [|split]]].
  - intros c Hc.
    destruct (pending_entry_row b db' st c) as [Hin Hs]; [by left|].
    by apply Hpending.
  - intros c Hc.
    destruct (pending_entry_row a db' st c) as [Hin Hs]; [by right|].
    by apply Hpending.
  - exists (mkContact r' (embed_profile db' (contacts.user_id r'))
                      (embed_profile db' (contacts.user_id r'))).
    split; [|split; [done|by rewrite Hembed; simpl; rewrite Ha]].
    cbn [fetchContacts contacts]. apply elem_of_app. right.
    rewrite <- list_fmap_compose. apply list_elem_of_fmap. exists r'.
    split; [done|]. apply list_elem_of_filter. split; [done|].
    apply Hrows. by left.
  - exists (with_contact_profile db' r').
    split; [|split; [done|by simpl; rewrite Hembed, Hb]].
    cbn [fetchContacts contacts]. apply elem_of_app. left.
    apply list_elem_of_fmap. exists r'. split; [done|].
    apply list_elem_of_filter. split; [done|]. apply Hrows. by left.
  - intros x Hx Hne. apply Hrows. by right.
Qed.
End ContactLists.

Section ContactRound.
Import ContactsView AddContactDialog.

Lemma filter_none {A} (P : A → Prop) `{∀ x, Decision (P x)} (l : list A) :
  (∀ x, x ∈ l → ¬ P x) → filter P l = [].
Proof.
  induction l as [|a l IH]; intros Hl; [done|].
  rewrite filter_cons, decide_False by (apply Hl; left).
  apply IH. intros x Hx. apply Hl. by right.
Qed.

Lemma insert_contact_ok g a b status db :
  fault g = None →
  gen_random_uuid g ∉ contacts.id <$> t_contacts db →
  (a, b) ∉ contact_key <$> t_contacts db →
  has_profile db a = true → has_profile db b = true →
  insert_contact g a b status db =
    (with_contacts
       (t_contacts db ++ [contacts.mk (gen_random_uuid g) a b status (Some (now g))])
       db, None).
Proof.
  intros Hf Hid Hkey Ha Hb. unfold insert_contact. rewrite Hf.
  rewrite (bool_decide_eq_false_2 _ Hid), (bool_decide_eq_false_2 _ Hkey).
  by rewrite Ha, Hb.
Qed.

Lemma insert_contact_inv g a b status db db' :
  insert_contact g a b status db = (db', None) →
  ((a, b) ∉ contact_key <$> t_contacts db) ∧
  has_profile db a = true ∧ has_profile db b = true ∧
  db' = with_contacts
          (t_contacts db ++ [contacts.mk (gen_random_uuid g) a b status (Some (now g))])
          db.
Proof.
  unfold insert_contact. destruct (fault g); [done|].
  case_bool_decide; [done|]. case_bool_decide as Hkey; [done|].
  destruct (has_profile db a) eqn:Ha, (has_profile db b) eqn:Hb; simpl; try done.
  by intros [= <-].
Qed.

Lemma handleSendRequest_added g a b db dst db' dst' out :
  handleSendRequest g (Some a) b db dst = (db', dst', out) →
  onAdded out = true →
  insert_contact g a b "pending" db = (db', None) ∧
  dst' = AddContactDialog.mkState
           (filter (λ p, profiles.id p ≠ b) (AddContactDialog.users dst)) None ∧
  toast out = Some request_sent.
Proof.
  unfold handleSendRequest.
  destruct (insert_contact g a b "pending" db) as [db1 [[?|code]|]].
  - by intros [= <- <- <-].
  - destruct (String.eqb code "23505"); by intros [= <- <- <-].
  - by intros [= <- <- <-].
Qed.

(** X28. A request that was stored shows on both sides: when
    [handleSendRequest] calls [onAdded], the table gained one pending row
    from the sender to the target, the sender's fetched sent requests show
    it with the target's profile, the target's received requests show it
    with the sender's profile, nobody's contact list changed, and the
    target left the dialog's result list. *)
Theorem request_reaches_both_lists g a b db dst db' dst' out st :
  handleSendRequest g (Some a) b db dst = (db', dst', out) →
  onAdded out = true →
  let r := contacts.mk (gen_random_uuid g) a b "pending" (Some (now g)) in
  t_contacts db' = t_contacts db ++ [r] ∧
  (∃ p, profiles.id p = b ∧
        ContactsView.mkContact r (Some p) None
          ∈ pendingSent (fetchContacts (Some a) db' st)) ∧
  (∃ p, profiles.id p = a ∧
        ContactsView.mkContact r None (Some p)
          ∈ pendingReceived (fetchContacts (Some b) db' st)) ∧
  (∀ w, contacts (fetchContacts w db' st) = contacts (fetchContacts w db st)) ∧
  (b ∉ profiles.id <$> AddContactDialog.users dst').
Proof.
  intros Hsend Hadded r.
  destruct (handleSendRequest_added _ _ _ _ _ _ _ _ Hsend Hadded) as (Hins & -> & _).
  apply insert_contact_inv in Hins as (_ & Ha & Hb & ->). fold r.
  apply bool_decide_eq_true_1, embed_profile_is_Some in Ha as [pa Hpa].
  apply bool_decide_eq_true_1, embed_profile_is_Some in Hb as [pb Hpb].
  set (db' := with_contacts (t_contacts db ++ [r]) db).
  assert (Hembed : ∀ x, embed_profile db' x = embed_profile db x) by done.
  split; [done|]. split; [|split; [|split]].
  - exists pb. split; [by apply embed_profile_id in Hpb|].
    cbn [fetchContacts pendingSent]. apply list_elem_of_fmap. exists r. split.
    + unfold with_contact_profile. by rewrite Hembed, <- Hpb.
    + apply list_elem_of_filter. split; [done|]. apply elem_of_app. right. by left.
  - exists pa. split; [by apply embed_profile_id in Hpa|].
    cbn [fetchContacts pendingReceived]. apply list_elem_of_fmap. exists r. split.
    + unfold with_user_profile. by rewrite Hembed, <- Hpa.
    + apply list_elem_of_filter. split; [done|]. apply elem_of_app. right. by left.
  - intros [w|]; [|done]. cbn [fetchContacts contacts t_contacts db' with_contacts].
    rewrite !filter_app, !fmap_app.
    rewrite !(filter_none _ [r]), !app_nil_r; [done|..].
    + intros x ->%list_elem_of_singleton [_ Hs]. done.
    + intros x ->%list_elem_of_singleton [_ Hs]. done.
  - simpl. intros (p & Hp & [Hne _]%list_elem_of_filter)%list_elem_of_fmap. done.
Qed.
End ContactRound.

Section OfferedUsers.
Import ContactsView ContactsSearch AddContactDialog UserSearch.

(** With every row pointing to stored profiles and no profile id empty, the
    ids handed to the dialog hold the counterpart of every pending or
    accepted row of the user. *)
Lemma existingContactIds_counterpart u db st r :
  (∀ x, x ∈ t_contacts db →
        contacts.user_id x ∈ profiles.id <$> t_profiles db ∧
        contacts.contact_id x ∈ profiles.id <$> t_profiles db) →
  "" ∉ profiles.id <$> t_profiles db →
  r ∈ t_contacts db →
  contacts.status r = "pending" ∨ contacts.status r = "accepted" →
  (contacts.user_id r = u →
   contacts.contact_id r ∈ existingContactIds (fetchContacts (Some u) db st)) ∧
  (contacts.contact_id r = u →
   contacts.user_id r ∈ existingContactIds (fetchContacts (Some u) db st)).
Proof.
  intros Hfk Hids Hr Hs. destruct (Hfk r Hr) as [Hpu Hpc].
  assert (Hnu : contacts.user_id r ≠ "") by (intros Heq; by rewrite Heq in Hpu).
  assert (Hnc : contacts.contact_id r ≠ "") by (intros Heq; by rewrite Heq in Hpc).
  unfold existingContactIds.
  cbn [fetchContacts contacts pendingSent pendingReceived].
  split; intros Hu; (apply list_elem_of_filter; split; [done|]);
    rewrite !elem_of_app; destruct Hs as [Hs|Hs].
  - right. left. apply list_elem_of_fmap. exists (with_contact_profile db r).
    split; [done|]. apply list_elem_of_fmap. exists r. split; [done|].
    by apply list_elem_of_filter.
  - left. apply list_elem_of_fmap. exists (with_contact_profile db r). split.
    + unfold contact_ref, with_contact_profile. simpl.
      destruct (embed_profile_is_Some db _ Hpc) as [p Hp]. rewrite Hp.
      apply embed_profile_id in Hp. rewrite Hp.
      by destruct (String.eqb_spec (contacts.contact_id r) "").
    + apply elem_of_app. left. apply list_elem_of_fmap. exists r. split; [done|].
      by apply list_elem_of_filter.
  - right. right. apply list_elem_of_fmap. exists (with_user_profile db r).
    split; [done|]. apply list_elem_of_fmap. exists r. split; [done|].
    by apply list_elem_of_filter.
  - left. apply list_elem_of_fmap.
    exists (mkContact r (embed_profile db (contacts.user_id r))
                      (embed_profile db (contacts.user_id r))). split.
    + unfold contact_ref. simpl.
      destruct (embed_profile_is_Some db _ Hpu) as [p Hp]. rewrite Hp.
      apply embed_profile_id in Hp. rewrite Hp.
      by destruct (String.eqb_spec (contacts.user_id r) "").
    + apply elem_of_app. right. rewrite <- list_fmap_compose.
      apply list_elem_of_fmap. exists r. split; [done|].
      by apply list_elem_of_filter.
Qed.

(** X29. The dialog only offers users the current user has no request or
    contact with: when the contact lists are those fetched from the
    database (rows pointing to stored profiles, no empty profile id, every
    status pending or accepted), each user listed by the search is a stored
    profile other than the current user with no row to or from the current
    user, so that sending the request to one of them is never refused as a
    duplicate: the gateway reached, it is stored and [onAdded] is called. *)
Theorem offered_user_can_be_requested (trim : string → string)
    (js_length : string → nat) (ilike : string → profiles.Row → bool)
    search u db cst dst g p :
  (∀ x, x ∈ t_contacts db →
        contacts.user_id x ∈ profiles.id <$> t_profiles db ∧
        contacts.contact_id x ∈ profiles.id <$> t_profiles db) →
  "" ∉ profiles.id <$> t_profiles db →
  (∀ x, x ∈ t_contacts db →
        contacts.status x = "pending" ∨ contacts.status x = "accepted") →
  let offered :=
    searchUsers trim js_length ilike search (Some u)
      (existingContactIds (fetchContacts (Some u) db cst)) db dst in
  p ∈ AddContactDialog.users offered →
  p ∈ t_profiles db ∧ profiles.id p ≠ u ∧
  (∀ x, x ∈ t_contacts db →
        contact_key x ≠ (u, profiles.id p) ∧ contact_key x ≠ (profiles.id p, u)) ∧
  (fault g = None →
   gen_random_uuid g ∉ contacts.id <$> t_contacts db →
   has_profile db u = true →
   let '(db', dst', out) := handleSendRequest g (Some u) (profiles.id p) db offered in
   toast out = Some request_sent ∧ onAdded out = true ∧
   t_contacts db' =
     t_contacts db ++
       [contacts.mk (gen_random_uuid g) u (profiles.id p) "pending" (Some (now g))] ∧
   p ∉ AddContactDialog.users dst').
Proof.
  intros Hfk Hids Hstatus offered Hp.
  assert (Hp' : p ∈ t_profiles db ∧ profiles.id p ≠ u ∧
                profiles.id p ∉ existingContactIds (fetchContacts (Some u) db cst)).
  { revert Hp. unfold offered, searchUsers.
    destruct (String.eqb (trim search) "" || (js_length search <? 2)); simpl.
    - by intros ?%elem_of_nil.
    - intros [Hnew Hin]%list_elem_of_filter.
      apply subseteq_take, list_elem_of_filter in Hin as [[Hne _] Hin]. done. }
  destruct Hp' as (Hin & Hne & Hnew).
  assert (Hfree : ∀ x, x ∈ t_contacts db →
            contact_key x ≠ (u, profiles.id p) ∧ contact_key x ≠ (profiles.id p, u)).
  { intros x Hx.
    destruct (existingContactIds_counterpart u db cst x Hfk Hids Hx (Hstatus x Hx))
      as [Hsent Hrec].
    split; intros [= Hu Hc]; apply Hnew.
    - rewrite <- Hc. by apply Hsent.
    - rewrite <- Hu. by apply Hrec. }
  split; [done|]. split; [done|]. split; [done|].
  intros Hf Hfresh Hu. unfold handleSendRequest.
  rewrite (insert_contact_ok g u (profiles.id p) "pending" db Hf Hfresh).
  - split; [done|]. split; [done|]. split; [done|].
    simpl. intros [Hq _]%list_elem_of_filter. done.
  - intros (x & Hx & Hxin)%list_elem_of_fmap. by destruct (Hfree x Hxin) as [Hk _].
  - done.
  - apply bool_decide_eq_true_2, list_elem_of_fmap. eauto.
Qed.
End OfferedUsers.

(** ** The added properties at work *)

Section ConversationWitnesses.
Import Fixtures Cases useConversations.


Lemma other_user_is_counterpart_witness :
  profiles.id (profile_of carol) ≠ alice ∧
  ∃ m, m ∈ t_conversation_members db_chat ∧
       conversation_members.conversation_id m = "c-1" ∧
       conversation_members.user_id m = carol.
Proof.
  destruct (other_user_is_counterpart alice db_chat alice_chat_entry (profile_of carol))
    as (_ & Hne & Hm).
  - vm_compute. left.
  - reflexivity.
  - split; [exact Hne|exact Hm].
Defined.

Lemma last_message_is_newest_witness :
  Forall (λ m', messages.conversation_id m' = "c-1" →
                ts_leb (messages.created_at m') (Some 120%Z) = true)
         (t_messages db_chat).
Proof.
  destruct (last_message_is_newest alice db_chat alice_chat_entry) as [Hlast _].
  - vm_compute. left.
  - destruct (Hlast (message "m-2" carol "hello" 120) eq_refl) as (_ & _ & Hnewest).
    apply Forall_forall. exact Hnewest.
Defined.


Lemma toggle_flips_membership_witness :
  NewChatDialog.toggle bob (NewChatDialog.toggle bob [alice; carol]) = [alice; carol].
Proof.
  apply (proj2 (proj2 (toggle_flips_membership bob [alice; carol]))).
  by_compute.
Defined.

Lemma handleCreate_group_rule_witness :
  ∃ conv,
    conv ∈ t_conversations
             (NewChatDialog.handleCreate (λ s, s) env_conv env_members (Some alice)
                db0 st0 chat_with_bob).1.1.1 ∧
    conversations.is_group conv = false ∧ conversations.name conv = None.
Proof.
  pose proof (handleCreate_group_rule (λ s, s) env_conv env_members (Some alice)
                db0 st0 chat_with_bob) as H.
  destruct (NewChatDialog.handleCreate (λ s, s) env_conv env_members (Some alice)
              db0 st0 chat_with_bob) as [[[db' hook'] st'] out] eqn:Hrun.
  destruct H as [_ H].
  destruct H as (conv & Hin & Hgroup & _ & Hname).
  - by injection Hrun as _ _ _ <-.
  - exists conv. split; [exact Hin|]. split; [exact Hgroup|]. by apply Hname.
Defined.
End ConversationWitnesses.

Section SendWitnesses.
Import Fixtures Cases SendMessage useMessages.

Lemma sendMessage_effect_witness :
  t_messages db_sent =
    t_messages db_chat ++
      [messages.mk "m-3" "c-1" (Some alice) (Some "yo") "text" None None false
         (Some 130%Z) (Some 130%Z)] ∧
  length (t_conversations db_sent) = 1.
Proof.
  pose proof (sendMessage_effect env_insert env_touch 999%Z "c-1" alice "yo" "text"
                None None db_chat) as H.
  change (sendMessage env_insert env_touch 999%Z (Some "c-1") (Some alice) "yo" "text"
            None None db_chat) with (db_sent, @None Err) in H.
  destruct H as (Hmsgs & _ & _ & _ & Hlen & _). split; [exact Hmsgs|exact Hlen].
Defined.



End SendWitnesses.

Section UploadWitnesses.
Import Fixtures Cases ChatView useFileUpload.

Lemma fileExt_after_last_dot_witness : fileExt ("archive.tar" +:+ "." +:+ "gz") = "gz".
Proof.
  apply (proj2 fileExt_after_last_dot "archive.tar" "gz"). reflexivity.
Defined.

Lemma handleSend_file_only_witness :
  handleSend (λ s, s) (uploadChatAttachment storage_ok public_url 1700 (Some alice))
    file_picked
  = (mkState "" false None,
     [StopTyping; UploadChatAttachment small_file;
      SendMessage "photo.png" "image"
        (Some "chat-attachments/a11ce/1700.png") (Some "photo.png")]).
Proof.
  apply (handleSend_file_only (λ s, s) storage_ok public_url 1700 alice file_picked
           small_file); reflexivity.
Defined.

Lemma handleSend_upload_failure_witness :
  handleSend (λ s, s) (uploadChatAttachment storage_down public_url 1700 (Some alice))
    file_picked
  = (mkState "" false (Some small_file),
     [StopTyping; UploadChatAttachment small_file; ShowToast send_failed]).
Proof.
  apply (handleSend_upload_failure (λ s, s) storage_down public_url 1700 (Some alice)
           file_picked small_file (JsError "storage unavailable")); reflexivity.
Defined.

Lemma handleSend_never_empty_witness :
  handleSend (λ s, s) (uploadChatAttachment storage_ok public_url 1700 (Some alice)) busy
  = (busy, []).
Proof.
  apply (proj2 (proj2 (handleSend_never_empty (λ s, s)
                         (uploadChatAttachment storage_ok public_url 1700 (Some alice))
                         busy))).
  left. reflexivity.
Defined.
End UploadWitnesses.

Section ProfileAndStoryWitnesses.
Import Fixtures Cases ChatView.

Lemma handleAvatarChange_checks_witness :
  ∃ data, avatar_ok portrait = inr data ∧
    ∀ p, p ∈ t_profiles
               (SettingsView.handleAvatarChange avatar_ok env_avatar (Some alice)
                  [portrait] db0 (Some (profile_of alice))).1.1 →
         profiles.id p = alice → profiles.avatar_url p = Some (url data).
Proof.
  pose proof (handleAvatarChange_checks avatar_ok env_avatar (Some alice) [portrait] db0
                (Some (profile_of alice))) as H.
  set (r := SettingsView.handleAvatarChange avatar_ok env_avatar (Some alice) [portrait]
              db0 (Some (profile_of alice))) in *.
  change r with (r.1.1, r.1.2, r.2) in H.
  destruct H as (_ & _ & H).
  destruct H as (file & data & u & Hhead & Hup & Hu & Hnew & _).
  - vm_compute. right. right. left.
  - injection Hhead as <-. injection Hu as <-. exists data. split; [exact Hup|exact Hnew].
Defined.

Lemma handleCreate_stores_witness :
  ∃ s, t_stories (CreateStoryDialog.handleCreate (λ s, s) media_ok env_story (Some alice)
                    db_stories text_story).1.1
         = t_stories db_stories ++ [s] ∧
       stories.expires_at s = Some (100 + interval_24_hours)%Z ∧
       stories.content s = Some "bonjour".
Proof.
  pose proof (handleCreate_stores (λ s, s) media_ok env_story alice db_stories text_story)
    as H.
  set (r := CreateStoryDialog.handleCreate (λ s, s) media_ok env_story (Some alice)
              db_stories text_story) in *.
  change r with (r.1.1, r.1.2, r.2) in H.
  destruct H as (_ & _ & H).
  destruct H as (_ & s & Hs & _ & _ & _ & Hexp & Hcontent & _).
  - reflexivity.
  - exists s. split; [exact Hs|]. split; [exact Hexp|exact Hcontent].
Defined.

Lemma published_story_listed_for_24_hours_witness :
  ∃ x, x ∈ StoriesView.myStories
             (StoriesView.fetchStories (Some alice) 200
                (CreateStoryDialog.handleCreate (λ s, s) media_ok env_story (Some alice)
                   db_stories text_story).1.1 stories0) ∧
       StoriesView.story_id x = "s-9".
Proof.
  apply (proj2 (published_story_listed_for_24_hours (λ s, s) media_ok env_story alice
                  db_stories text_story _ _ _ stories0 200%Z eq_refl eq_refl)).
  reflexivity.
Defined.
End ProfileAndStoryWitnesses.

Section ContactWitnesses.
Import Fixtures Cases ContactsView AddContactDialog.

Lemma fetchContacts_sorts_rows_witness :
  request_row ∈ row <$> (pendingReceived (fetchContacts (Some bob) db_asked contacts0) ++
                         pendingSent (fetchContacts (Some bob) db_asked contacts0) ++
                         contacts (fetchContacts (Some bob) db_asked contacts0)).
Proof.
  apply (proj2 (proj2 (proj2 (fetchContacts_sorts_rows bob db_asked contacts0)))).
  - by_compute.
  - right. reflexivity.
  - left. reflexivity.
Defined.

Lemma handleAccept_moves_request_witness :
  ∃ c, c ∈ contacts (fetchContacts (Some alice)
                       (handleAccept env_answer (Some bob) "k-1" db_asked contacts0).1.1
                       contacts0) ∧
       contact_profile c = Some (profile_of bob).
Proof.
  pose proof (handleAccept_moves_request env_answer alice bob request_row db_asked
                contacts0 eq_refl) as H.
  set (r := handleAccept env_answer (Some bob) (contacts.id request_row) db_asked
              contacts0) in *.
  change r with (r.1.1, r.1.2, r.2) in H.
  destruct H as (_ & _ & _ & _ & _ & (c & Hc & _ & Hprof) & _).
  - by_compute.
  - by_compute.
  - reflexivity.
  - exists c. split; [exact Hc|exact Hprof].
Defined.


Lemma request_reaches_both_lists_witness :
  t_contacts db_asked = t_contacts db0 ++ [request_row] ∧
  ∃ p, profiles.id p = alice ∧
       ContactsView.mkContact request_row None (Some p)
         ∈ pendingReceived (fetchContacts (Some bob) db_asked contacts0).
Proof.
  destruct (request_reaches_both_lists env_ask alice bob db0 dialog0 db_asked _ _ contacts0
              eq_refl eq_refl) as (Hrows & _ & Hreceived & _).
  split; [exact Hrows|exact Hreceived].
Defined.

Lemma offered_user_can_be_requested_witness :
  profiles.id (profile_of carol) ≠ alice ∧
  ∀ x, x ∈ t_contacts db_asked →
       contact_key x ≠ (alice, carol) ∧ contact_key x ≠ (carol, alice).
Proof.
  destruct (offered_user_can_be_requested (λ s, s) String.length (λ _ _, true) "ca"
              alice db_asked contacts0 dialog0 env_ask_again (profile_of carol))
    as (_ & Hne & Hfree & _).
  - apply (proj1 (Forall_forall
                    (λ x, contacts.user_id x ∈ profiles.id <$> t_profiles db_asked ∧
                          contacts.contact_id x ∈ profiles.id <$> t_profiles db_asked)
                    (t_contacts db_asked))).
    by_compute.
  - by_compute.
  - apply (proj1 (Forall_forall
                    (λ x, contacts.status x = "pending" ∨ contacts.status x = "accepted")
                    (t_contacts db_asked))).
    by_compute.
  - by_compute.
  - split; [exact Hne|exact Hfree].
Defined.
End ContactWitnesses.
